(** * Event probabilities over sample spaces (section_1.ipynb) and
      observed head frequencies (the NumPy simulation notebook)

    A shallow embedding of the notebook functions [get_matching_event],
    [compute_event_probability], [is_in_interval],
    [generate_coin_sample_space] and [frequency_heads], with the
    properties their description states.

    Python values are embedded as follows.
    - A Python [int] is a [Z].
    - A Python [set] of hashable outcomes is a [gset A]; a [dict] (or
      [defaultdict(int)]) from outcomes to ints is a [gmap A Z].  Iterating
      over a set yields [elements s]; iterating over a dict yields its keys.
    - An event condition is a function [A → bool] (its result is only ever
      used for its truth value).
    - A call either returns a value or raises: [PyResult].
    - [a / b] on ints is Python's true division.  CPython raises
      [ZeroDivisionError] when [b] is zero, raises [OverflowError] when the
      quotient rounds to a magnitude of [2^1024] or more, and otherwise
      returns the double nearest to the exact quotient.  The embedding keeps
      the exact quotient, as a canonical rational [Qc]: equal rationals are
      equal Rocq values, and the double Python returns is a function of that
      rational.  Rounding itself is not modelled. *)

From Stdlib Require Import ZArith QArith Qcanon Lia.
From stdpp Require Import base numbers list strings gmap fin_sets fin_maps.

Local Open Scope Z_scope.

(** ** Results of Python calls *)

Inductive PyError : Type :=
  | ZeroDivisionError
  | OverflowError
  | KeyError
  | ValueError.

Inductive PyResult (A : Type) : Type :=
  | Return (a : A)
  | Raise (e : PyError).
Arguments Return {A} a.
Arguments Raise {A} e.

Definition bind {A B} (m : PyResult A) (k : A → PyResult B) : PyResult B :=
  match m with
  | Return a => k a
  | Raise e => Raise e
  end.

Notation "x ←! m ; k" := (bind m (λ x, k))
  (at level 20, m at level 100, k at level 200, right associativity,
   only parsing).

(** [[g(x) for x in l]] where [g] may raise: left to right, the first
    exception wins. *)
Fixpoint for_each {A B} (g : A → PyResult B) (l : list A) : PyResult (list B) :=
  match l with
  | [] => Return []
  | x :: l' => y ←! g x; ys ←! for_each g l'; Return (y :: ys)
  end.

(** ** Builtins *)

(** [len(l)] *)
Definition len {A} (l : list A) : Z := Z.of_nat (length l).

(** [sum(l)] on ints *)
Definition sum (l : list Z) : Z := foldr Z.add 0 l.

(** The least magnitude of a quotient that no longer rounds to a finite
    double: halfway between the largest double [2^1024 - 2^971] and
    [2^1024]. *)
Definition float_overflow_bound : Z := 2 ^ 1024 - 2 ^ 970.

(** [a / b] on ints *)
Definition truediv (a b : Z) : PyResult Qc :=
  if decide (b = 0) then Raise ZeroDivisionError
  else if decide (float_overflow_bound * Z.abs b ≤ Z.abs a) then Raise OverflowError
  else Return (Qc_of_Z a / Qc_of_Z b)%Qc.

(** [d[k]] on a dict *)
Definition getitem `{Countable A} (d : gmap A Z) (k : A) : PyResult Z :=
  match d !! k with
  | Some w => Return w
  | None => Raise KeyError
  end.

(** [d[k]] on a [defaultdict(int)], read as a total function: a missing key
    reads as [int()], which is [0]. *)
Definition weight `{Countable A} (d : gmap A Z) (k : A) : Z :=
  default 0 (d !! k).

(** [d.values()] *)
Definition values `{Countable A} (d : gmap A Z) : list Z := (map_to_list d).*2.

(** ** Sample spaces and events *)

(** The argument [generic_sample_space]: a set of equally likely outcomes or
    a dict from outcomes to weights.  [compute_event_probability] tells the
    two apart with [type(generic_sample_space) == type(set())]. *)
Inductive SampleSpace (A : Type) `{Countable A} : Type :=
  | SetSpace (s : gset A)
  | DictSpace (d : gmap A Z).
Arguments SetSpace {A _ _} s.
Arguments DictSpace {A _ _} d.

(** [for outcome in sample_space] *)
Definition iterate `{Countable A} (space : SampleSpace A) : list A :=
  match space with
  | SetSpace s => elements s
  | DictSpace d => (map_to_list d).*1
  end.

(** [[
def get_matching_event(event_condition, sample_space):
    return set([outcome for outcome in sample_space if event_condition(outcome)])
]] *)
Definition get_matching_event `{Countable A}
    (event_condition : A → bool) (sample_space : SampleSpace A) : gset A :=
  list_to_set (filter (λ outcome, event_condition outcome) (iterate sample_space)).

(** [[
def compute_event_probability(event_condition, generic_sample_space):
    event = get_matching_event(event_condition, generic_sample_space)
    if type(generic_sample_space) == type(set()):
        return len(event)/len(generic_sample_space)

    event_size = sum(generic_sample_space[outcome] for outcome in event)
    return event_size / sum(generic_sample_space.values())
]] *)
Definition compute_event_probability `{Countable A}
    (event_condition : A → bool) (generic_sample_space : SampleSpace A) : PyResult Qc :=
  let event := get_matching_event event_condition generic_sample_space in
  match generic_sample_space with
  | SetSpace s => truediv (len (elements event)) (len (elements s))
  | DictSpace d =>
      weights ←! for_each (getitem d) (elements event);
      let event_size := sum weights in
      truediv event_size (sum (values d))
  end.

(** [[
def is_in_interval(number, minimum, maximum):
    return minimum <= number <= maximum
]] *)
Definition is_in_interval (number minimum maximum : Z) : bool :=
  (minimum <=? number) && (number <=? maximum).

(** ** The coin example

    [[
def is_heads(outcome):
    return outcome =='Heads'

sample_space = {'Heads', 'Tails'}
weighted_sample_space = {'Heads' : 4, 'Tails' : 1}
    ]] *)

Definition is_heads (outcome : string) : bool := bool_decide (outcome = "Heads").

Definition coin_sample_space : gset string := {["Heads"; "Tails"]}.

Definition weighted_coin_sample_space : gmap string Z :=
  {["Heads" := 4; "Tails" := 1]}.

(** ** Enumerated sample spaces *)

(** [itertools.product(pool, repeat=n)], in the order the library documents:
    [[
    result = [[]]
    for pool in pools:
        result = [x+[y] for x in result for y in pool]
    ]]
    The tuples it yields are embedded as lists. *)
Fixpoint product {A} (pool : list A) (n : nat) : list (list A) :=
  match n with
  | O => [[]]
  | S n' => x ← product pool n'; y ← pool; [x ++ [y]]
  end.

(** [possible_rolls = list(range(1,7))] *)
Definition possible_rolls : list Z := seqZ 1 6.

(** [sample_space = set(product(possible_rolls, repeat=6))] *)
Definition dice_sample_space : gset (list Z) :=
  list_to_set (product possible_rolls 6).

(** [[
def has_sum_of_21(outcome):
    return sum(outcome) == 21
]] *)
Definition has_sum_of_21 (outcome : list Z) : bool :=
  bool_decide (sum outcome = 21).

(** [[
possible_children = ['Boy', 'Girl']
sample_space = set(product(possible_children, repeat=4))

def has_two_boys(outcome):
    return len([child for child in outcome if child == 'Boy']) == 2
]] *)
Definition children_sample_space : gset (list string) :=
  list_to_set (product ["Boy"; "Girl"] 4).

Definition has_two_boys (outcome : list string) : bool :=
  bool_decide (len (filter (λ child, child = "Boy") outcome) = 2).

(** ** Histograms *)

(** [d[k] += 1] on a [defaultdict(int)] *)
Definition increment `{Countable K} (d : gmap K Z) (k : K) : gmap K Z :=
  <[k := weight d k + 1]> d.

(** The counting loop of the notebook, for a statistic [f] of the outcomes:
    [[
weighted_sample_space = defaultdict(int)
for outcome in sample_space:
    total = f(outcome)
    weighted_sample_space[total] += 1
    ]] *)
Definition count_by {A} `{Countable K} (f : A → K) (l : list A) : gmap K Z :=
  foldl (λ d outcome, increment d (f outcome)) ∅ l.

(** [weighted_sample_space] of the die rolls: [f] is [sum], the loop runs
    over the set [sample_space]. *)
Definition weighted_dice_sample_space : gmap Z Z :=
  count_by sum (elements dice_sample_space).

(** [len([outcome for outcome in coin_flips if outcome == 'Heads'])] *)
Definition heads_count (coin_flips : list string) : Z :=
  len (filter (λ outcome, outcome = "Heads") coin_flips).

(** [[
def generate_coin_sample_space(num_flips=10):
    weighted_sample_space = defaultdict(int)
    for coin_flips in product(['Heads', 'Tails'], repeat=num_flips):
        heads_count = len([outcome for outcome in coin_flips if outcome == 'Heads'])
        weighted_sample_space[heads_count] += 1
    return weighted_sample_space
]]
    The call of [product] can raise, before the loop runs.  On 64-bit
    CPython [repeat] is converted to a C [Py_ssize_t], which raises
    [OverflowError] outside the range from [-2^63] to [2^63 - 1]; a negative
    [repeat] raises [ValueError]; and a [repeat] above [(2^63 - 1) / 8], the
    largest number of pools [product] allocates indices for, raises
    [OverflowError] ("repeat argument too large"), that is from [2^60] on.
    Running out of memory or of time is not modelled. *)
Definition generate_coin_sample_space (num_flips : Z) : PyResult (gmap Z Z) :=
  if decide (num_flips < -(2 ^ 63) ∨ 2 ^ 60 ≤ num_flips) then Raise OverflowError
  else if decide (num_flips < 0) then Raise ValueError
  else Return (count_by heads_count (product ["Heads"; "Tails"] (Z.to_nat num_flips))).

(** The binomial coefficient, by Pascal's rule. *)
Fixpoint choose (n k : nat) : nat :=
  match n, k with
  | _, O => 1
  | O, S _ => 0
  | S n', S k' => choose n' k' + choose n' k
  end.

(** [W] is the histogram of the statistic [f] over the outcomes [S]: the
    weight of every value is the number of outcomes with that value (its
    multiplicity among the values [f o], [o] in [S]); a value that no outcome
    has weighs nothing. *)
Definition is_histogram `{Countable A} `{Countable K}
    (f : A → K) (S : gset A) (W : gmap K Z) : Prop :=
  ∀ v, weight W v = Z.of_nat (size (filter (λ o, f o = v) S)).

(** ** Observed frequencies *)

(** [[
def frequency_heads(coin_flip_sequence):
    total_heads = len([head for head in coin_flip_sequence if head == 1])
    return total_heads / len(coin_flip_sequence)
]] *)
Definition frequency_heads (coin_flip_sequence : list Z) : PyResult Qc :=
  let total_heads := len (filter (λ head, head = 1) coin_flip_sequence) in
  truediv total_heads (len coin_flip_sequence).

(** ** Measures of events

    The quantities the description of [compute_event_probability] is stated
    in: the number of outcomes of a set, and the summed weight of a set of
    keys of a dict. *)

(** [sum(g(x) for x in X)] for a set [X] *)
Definition sum_over `{Countable A} (g : A → Z) (X : gset A) : Z :=
  sum (g <$> elements X).

(** Every stored weight is at least zero. *)
Definition nonneg_weights `{Countable A} (d : gmap A Z) : Prop :=
  map_Forall (λ _ w, 0 ≤ w) d.

(** Every stored weight is a positive integer, as the data model of the
    weighted sample space asks. *)
Definition positive_weights `{Countable A} (d : gmap A Z) : Prop :=
  map_Forall (λ _ w, 0 < w) d.

#[global] Instance nonneg_weights_dec `{Countable A} (d : gmap A Z) :
  Decision (nonneg_weights d).
Proof. unfold nonneg_weights. apply _. Defined.

#[global] Instance positive_weights_dec `{Countable A} (d : gmap A Z) :
  Decision (positive_weights d).
Proof. unfold positive_weights. apply _. Defined.

(** A non-empty sample space: a set with an outcome, or a dict with a key
    and positive integer weights. *)
Definition nonempty_space `{Countable A} (space : SampleSpace A) : Prop :=
  match space with
  | SetSpace s => s ≠ ∅
  | DictSpace d => d ≠ ∅ ∧ positive_weights d
  end.

(** The outcomes of a space: the elements of a set, the keys of a dict. *)
Definition outcomes `{Countable A} (space : SampleSpace A) : gset A :=
  match space with
  | SetSpace s => s
  | DictSpace d => dom d
  end.

(** The measure of one outcome: [1] in a set, its weight in a dict. *)
Definition outcome_measure `{Countable A} (space : SampleSpace A) : A → Z :=
  match space with
  | SetSpace _ => λ _, 1
  | DictSpace d => weight d
  end.

(** The measure of the outcomes that satisfy a condition. *)
Definition matching_measure `{Countable A}
    (c : A → bool) (space : SampleSpace A) : Z :=
  sum_over (outcome_measure space) (filter (λ o, c o) (outcomes space)).

(** The measure of the whole space. *)
Definition total_measure `{Countable A} (space : SampleSpace A) : Z :=
  sum_over (outcome_measure space) (outcomes space).

(** Spaces whose outcomes all have a measure of at least zero. *)
Definition nonneg_space `{Countable A} (space : SampleSpace A) : Prop :=
  match space with
  | SetSpace _ => True
  | DictSpace d => nonneg_weights d
  end.

(** ** Further code of the notebooks *)

(** [[
def is_heads_or_tails(outcome):
    return outcome in {'Heads', 'Tails'}

def is_neither(outcome):
    return not is_heads_or_tails(outcome)

def is_tails(outcome):
    return outcome == 'Tails'
]] *)
Definition is_heads_or_tails (outcome : string) : bool :=
  bool_decide (outcome ∈ ({["Heads"; "Tails"]} : gset string)).

Definition is_neither (outcome : string) : bool :=
  negb (is_heads_or_tails outcome).

Definition is_tails (outcome : string) : bool := bool_decide (outcome = "Tails").

(** [[
def compute_probability(event_condition, generic_sample_space):
    event = get_matching_event(event_condition, generic_sample_space)
    return len(event) / len(generic_sample_space)
]]
    [len] of a dict is the number of its keys. *)
Definition compute_probability `{Countable A}
    (event_condition : A → bool) (generic_sample_space : SampleSpace A) : PyResult Qc :=
  let event := get_matching_event event_condition generic_sample_space in
  truediv (len (elements event)) (len (iterate generic_sample_space)).

(** [[
sample_space = set()
for child1 in possible_children:
    for child2 in possible_children:
        for child3 in possible_children:
            for child4 in possible_children:
                outcome = (child1, child2, child3, child4)
                sample_space.add(outcome)
]]
    as a function of the list [possible_children]; [sample_space.add] is
    threaded through the four loops. *)
Definition nested_sample_space `{Countable A} (possible_children : list A) : gset (list A) :=
  foldl (λ sample_space child1,
    foldl (λ sample_space child2,
      foldl (λ sample_space child3,
        foldl (λ sample_space child4,
          let outcome := [child1; child2; child3; child4] in
          {[outcome]} ∪ sample_space)
        sample_space possible_children)
      sample_space possible_children)
    sample_space possible_children)
  ∅ possible_children.

(** [itertools.product] applied to a list of pools (the call with a starred
    argument), by the same documented loop as [product]. *)
Definition product_of {A} (pools : list (list A)) : list (list A) :=
  foldl (λ result pool, x ← result; y ← pool; [x ++ [y]]) [[]] pools.

(** The number of flips equal to 1, and its ratio to the number of flips. *)
Definition total_heads (coin_flip_sequence : list Z) : Z :=
  len (filter (λ head, head = 1) coin_flip_sequence).

Definition heads_ratio (coin_flip_sequence : list Z) : Qc :=
  (Qc_of_Z (total_heads coin_flip_sequence) / Qc_of_Z (len coin_flip_sequence))%Qc.

(** The simulation loop of the second notebook:
    [[
coin_flips = []
frequencies = []
for _ in range(2000):
    coin_flips.append(np.random.randint(0,2))
    frequencies.append(frequency_heads(coin_flips))
]]
    The values that [np.random.randint(0,2)] returns, one for each round,
    are the argument [draws]; the result is the pair of the two lists. *)
Fixpoint simulate_frequencies (draws coin_flips : list Z) (frequencies : list Qc)
    : PyResult (list Z * list Qc) :=
  match draws with
  | [] => Return (coin_flips, frequencies)
  | flip :: draws' =>
      let coin_flips := coin_flips ++ [flip] in
      frequency ←! frequency_heads coin_flips;
      simulate_frequencies draws' coin_flips (frequencies ++ [frequency])
  end.


(** The weight of an event of a weighted sample space, as the notebook
    computes it on its own and inside [compute_event_probability]:
    [[
event_size = sum(weighted_sample_space[outcome] for outcome in event)
    ]] *)
Definition event_size `{Countable A} (d : gmap A Z) (event : gset A) : PyResult Z :=
  weights ←! for_each (getitem d) (elements event);
  Return (sum weights).

(** * Properties *)

Section events.
Context `{Countable A}.
Implicit Types (c : A → bool) (s : gset A) (d : gmap A Z) (o : A).

Lemma get_matching_event_set c s :
  get_matching_event c (SetSpace s) = filter (λ o, c o) s.
Proof.
  apply set_eq. intros o. unfold get_matching_event. simpl.
  rewrite elem_of_list_to_set, list_elem_of_filter, elem_of_elements, elem_of_filter.
  done.
Qed.

Lemma get_matching_event_dict c d :
  get_matching_event c (DictSpace d) = filter (λ o, c o) (dom d).
Proof.
  apply set_eq. intros o. unfold get_matching_event. simpl.
  rewrite elem_of_list_to_set, list_elem_of_filter, elem_of_filter, elem_of_dom.
  rewrite list_elem_of_fmap. split.
  - intros [Hc [[k w] [-> Hin]]]. apply elem_of_map_to_list in Hin. simpl. eauto.
  - intros [Hc [w Hw]]. split; [done|]. exists (o, w). split; [done|].
    by apply elem_of_map_to_list.
Qed.

End events.

(** ** Sums over lists and over finite sets *)

Lemma sum_cons (x : Z) (l : list Z) : sum (x :: l) = x + sum l.
Proof. done. Qed.

Lemma sum_Permutation (l1 l2 : list Z) : l1 ≡ₚ l2 → sum l1 = sum l2.
Proof. unfold sum. induction 1; simpl; lia. Qed.

Section sum_over.
Context `{Countable A}.
Implicit Types (g h : A → Z) (X Y : gset A) (P : A → Prop).

Lemma sum_over_empty g : sum_over g ∅ = 0.
Proof. unfold sum_over. by rewrite elements_empty. Qed.

Lemma sum_over_insert g x X :
  x ∉ X → sum_over g ({[x]} ∪ X) = g x + sum_over g X.
Proof.
  intros Hx. unfold sum_over.
  rewrite (sum_Permutation _ (g <$> x :: elements X)); [done|].
  by rewrite elements_union_singleton.
Qed.

Lemma sum_over_ext g h X :
  (∀ x, x ∈ X → g x = h x) → sum_over g X = sum_over h X.
Proof.
  intros Hgh. unfold sum_over. f_equal. apply list_fmap_ext.
  intros i x Hx. apply Hgh, elem_of_elements. by eapply list_elem_of_lookup_2.
Qed.

Lemma sum_over_one X : sum_over (λ _, 1) X = Z.of_nat (size X).
Proof.
  induction X as [|x X Hx IH] using set_ind_L.
  - by rewrite sum_over_empty, size_empty.
  - rewrite sum_over_insert, IH by done.
    rewrite size_union, size_singleton by set_solver. lia.
Qed.

Lemma sum_over_nonneg g X : (∀ x, x ∈ X → 0 ≤ g x) → 0 ≤ sum_over g X.
Proof.
  induction X as [|x X Hx IH] using set_ind_L; intros Hg.
  - by rewrite sum_over_empty.
  - rewrite sum_over_insert by done.
    assert (0 ≤ g x) by (apply Hg; set_solver).
    assert (0 ≤ sum_over g X) by (apply IH; intros; apply Hg; set_solver).
    lia.
Qed.

Lemma sum_over_pos g X :
  X ≠ ∅ → (∀ x, x ∈ X → 0 < g x) → 0 < sum_over g X.
Proof.
  induction X as [|x X Hx IH] using set_ind_L; intros Hne Hg; [done|].
  rewrite sum_over_insert by done.
  assert (0 < g x) by (apply Hg; set_solver).
  assert (0 ≤ sum_over g X).
  { apply sum_over_nonneg. intros y Hy. apply Z.lt_le_incl, Hg. set_solver. }
  lia.
Qed.

Lemma filter_insert P `{!∀ x, Decision (P x)} x X :
  filter P ({[x]} ∪ X)
  = if decide (P x) then {[x]} ∪ filter P X else filter P X.
Proof.
  apply set_eq. intros y. destruct (decide (P x)) as [HP|HP];
    rewrite ?elem_of_union, !elem_of_filter, elem_of_union, elem_of_singleton.
  - split; [intros [? [->|?]]; auto|intros [->|[? ?]]; auto].
  - split; [intros [? [->|?]]; [done|auto]|intros [? ?]; auto].
Qed.

Lemma filter_all P `{!∀ x, Decision (P x)} X : (∀ x, P x) → filter P X = X.
Proof.
  intros HP. apply set_eq. intros y. rewrite elem_of_filter. split; [tauto|auto].
Qed.

Lemma sum_over_filter_insert g P `{!∀ x, Decision (P x)} x X :
  x ∉ X →
  sum_over g (filter P ({[x]} ∪ X))
  = (if decide (P x) then g x else 0) + sum_over g (filter P X).
Proof.
  intros Hx. rewrite filter_insert. destruct (decide (P x)) as [HP|HP]; [|done].
  rewrite sum_over_insert; [done|]. rewrite elem_of_filter. tauto.
Qed.

(** A condition and its negation split the measure of a set. *)
Lemma sum_over_filter_split g P `{!∀ x, Decision (P x)} X :
  sum_over g (filter P X) + sum_over g (filter (λ x, ¬ P x) X) = sum_over g X.
Proof.
  induction X as [|x X Hx IH] using set_ind_L.
  - by replace (filter P ∅) with (∅ : gset A) by set_solver.
  - rewrite !sum_over_filter_insert, sum_over_insert by done.
    destruct (decide (P x)), (decide (¬ P x)); try tauto; lia.
Qed.

(** A weaker condition selects at least as much measure. *)
Lemma sum_over_filter_mono g P Q
    `{!∀ x, Decision (P x)} `{!∀ x, Decision (Q x)} X :
  (∀ x, x ∈ X → 0 ≤ g x) → (∀ x, P x → Q x) →
  sum_over g (filter P X) ≤ sum_over g (filter Q X).
Proof.
  intros Hg HPQ. induction X as [|x X Hx IH] using set_ind_L.
  - by replace (filter P ∅) with (∅ : gset A) by set_solver.
  - rewrite !sum_over_filter_insert by done.
    assert (0 ≤ g x) by (apply Hg; set_solver).
    assert (sum_over g (filter P X) ≤ sum_over g (filter Q X))
      by (apply IH; intros; apply Hg; set_solver).
    destruct (decide (P x)), (decide (Q x)); try lia.
    exfalso; auto.
Qed.

Lemma sum_over_filter_le g P `{!∀ x, Decision (P x)} X :
  (∀ x, x ∈ X → 0 ≤ g x) → sum_over g (filter P X) ≤ sum_over g X.
Proof.
  intros Hg. rewrite <-(sum_over_filter_split g P X).
  assert (0 ≤ sum_over g (filter (λ x, ¬ P x) X)); [|lia].
  apply sum_over_nonneg. intros x [_ Hx]%elem_of_filter. by apply Hg.
Qed.

Lemma sum_over_filter_nonneg g P `{!∀ x, Decision (P x)} X :
  (∀ x, x ∈ X → 0 ≤ g x) → 0 ≤ sum_over g (filter P X).
Proof.
  intros Hg. apply sum_over_nonneg. intros x [_ Hx]%elem_of_filter. by apply Hg.
Qed.

(** [sum(d.values())] adds the weight of every key once. *)
Lemma sum_values (d : gmap A Z) : sum (values d) = sum_over (weight d) (dom d).
Proof.
  unfold values. induction d as [|k w d Hk IH] using map_ind.
  - by rewrite map_to_list_empty, dom_empty_L, sum_over_empty.
  - rewrite (sum_Permutation _ (((k, w) :: map_to_list d).*2))
      by (by rewrite map_to_list_insert).
    rewrite dom_insert_L, sum_over_insert by (by apply not_elem_of_dom).
    rewrite fmap_cons, sum_cons, IH. unfold weight at 2.
    rewrite lookup_insert_eq. simpl.
    f_equal. apply sum_over_ext. intros x Hx. unfold weight.
    rewrite lookup_insert_ne; [done|]. intros ->.
    by apply not_elem_of_dom in Hk.
Qed.

(** Reading the weights of keys of the dict never raises. *)
Lemma for_each_getitem (d : gmap A Z) (l : list A) :
  (∀ k, k ∈ l → k ∈ dom d) →
  for_each (getitem d) l = Return (weight d <$> l).
Proof.
  induction l as [|k l IH]; intros Hl; [done|]. simpl.
  assert (k ∈ dom d) as [w Hw]%elem_of_dom by (apply Hl; left).
  unfold getitem at 1, weight at 1. rewrite Hw. simpl.
  rewrite IH; [done|]. intros k' Hk'. apply Hl. by right.
Qed.

End sum_over.

(** ** True division *)

Lemma Qc_of_Z_pos (b : Z) : 0 < b → (0 < Qc_of_Z b)%Qc.
Proof. intros Hb%Z2Qc_inj_lt. by rewrite Z2Qc_inj_0 in Hb. Qed.

Lemma Qcdiv_le_mono (a1 a2 b : Z) :
  0 < b → a1 ≤ a2 → (Qc_of_Z a1 / Qc_of_Z b ≤ Qc_of_Z a2 / Qc_of_Z b)%Qc.
Proof.
  intros Hb Ha. unfold Qcdiv. apply Qcmult_le_mono_nonneg_r.
  - apply Qclt_le_weak, Qcinv_pos, Qc_of_Z_pos, Hb.
  - by apply Z2Qc_inj_le in Ha.
Qed.

Lemma Qcdiv_diag (b : Z) : b ≠ 0 → (Qc_of_Z b / Qc_of_Z b = 1)%Qc.
Proof.
  intros Hb. unfold Qcdiv. apply Qcmult_inv_r.
  rewrite <-Z2Qc_inj_0. by intros ?%Z2Qc_inj.
Qed.

Lemma Qcdiv_zero (b : Z) : (Qc_of_Z 0 / Qc_of_Z b = 0)%Qc.
Proof. rewrite Z2Qc_inj_0. unfold Qcdiv. apply Qcmult_0_l. Qed.

Lemma Qcdiv_add (a1 a2 b : Z) :
  (Qc_of_Z a1 / Qc_of_Z b + Qc_of_Z a2 / Qc_of_Z b
   = Qc_of_Z (a1 + a2) / Qc_of_Z b)%Qc.
Proof. rewrite Z2Qc_inj_add. unfold Qcdiv. by rewrite Qcmult_plus_distr_l. Qed.

Lemma Qcdiv_unit_interval (a b : Z) :
  0 ≤ a ≤ b → 0 < b → (0 ≤ Qc_of_Z a / Qc_of_Z b ≤ 1)%Qc.
Proof.
  intros [Ha Hab] Hb. split.
  - rewrite <-(Qcdiv_zero b). by apply Qcdiv_le_mono.
  - rewrite <-(Qcdiv_diag b) by lia. by apply Qcdiv_le_mono.
Qed.

Lemma float_overflow_bound_gt_1 : 1 < float_overflow_bound.
Proof. reflexivity. Qed.

Lemma truediv_by_zero (a : Z) : truediv a 0 = Raise ZeroDivisionError.
Proof. done. Qed.

(** A quotient in the unit interval is returned: no error is raised. *)
Lemma truediv_unit_interval (a b : Z) :
  0 ≤ a ≤ b → 0 < b → truediv a b = Return (Qc_of_Z a / Qc_of_Z b)%Qc.
Proof.
  intros Hab Hb. unfold truediv.
  destruct (decide (b = 0)) as [->|_]; [lia|].
  pose proof float_overflow_bound_gt_1 as Hbound.
  destruct (decide _) as [Hover|_]; [|done].
  revert Hbound Hover. generalize float_overflow_bound. intros M HM Hover. nia.
Qed.

(** ** The measure form of [compute_event_probability] *)

Section probability.
Context `{Countable A}.
Implicit Types (c : A → bool) (s : gset A) (d : gmap A Z) (o : A).
Implicit Types (space : SampleSpace A).

Lemma get_matching_event_outcomes c space :
  get_matching_event c space = filter (λ o, c o) (outcomes space).
Proof.
  destruct space; [apply get_matching_event_set|apply get_matching_event_dict].
Qed.

(** On every space, sets and dicts alike, the function divides the measure
    of the matching outcomes by the measure of the space; reading the
    weights of the event never raises [KeyError]. *)
Lemma compute_event_probability_measure c space :
  compute_event_probability c space
  = truediv (matching_measure c space) (total_measure space).
Proof.
  unfold compute_event_probability, matching_measure, total_measure.
  rewrite get_matching_event_outcomes. destruct space as [s|d]; simpl.
  - by rewrite !sum_over_one.
  - rewrite for_each_getitem; simpl.
    + by rewrite sum_values.
    + intros k [_ Hk]%elem_of_elements%elem_of_filter. done.
Qed.

Lemma total_measure_set s : total_measure (SetSpace s) = Z.of_nat (size s).
Proof. apply sum_over_one. Qed.

Lemma total_measure_dict d : total_measure (DictSpace d) = sum (values d).
Proof. symmetry. apply sum_values. Qed.

Lemma matching_measure_set c s :
  matching_measure c (SetSpace s) = Z.of_nat (size (filter (λ o, c o) s)).
Proof. apply sum_over_one. Qed.

Lemma weight_nonneg d o : nonneg_weights d → 0 ≤ weight d o.
Proof.
  intros Hd. unfold weight. destruct (d !! o) as [w|] eqn:Hw; simpl; [|done].
  by apply (Hd o w).
Qed.

Lemma positive_nonneg_weights d : positive_weights d → nonneg_weights d.
Proof. intros Hd o w Hw. by apply Z.lt_le_incl, (Hd o w). Qed.

Lemma outcome_measure_nonneg space o :
  nonneg_space space → 0 ≤ outcome_measure space o.
Proof. destruct space; simpl; [lia|]. apply weight_nonneg. Qed.

Lemma nonempty_nonneg_space space : nonempty_space space → nonneg_space space.
Proof. destruct space; simpl; [done|]. intros [_ ?]. by apply positive_nonneg_weights. Qed.

Lemma nonempty_total_measure space :
  nonempty_space space → 0 < total_measure space.
Proof.
  unfold total_measure. destruct space as [s|d]; simpl.
  - intros Hs. by apply sum_over_pos.
  - intros [Hd Hpos]. apply sum_over_pos.
    + by rewrite dom_empty_iff_L.
    + intros o [w Hw]%elem_of_dom. unfold weight. rewrite Hw. simpl.
      by apply (Hpos o w).
Qed.

Lemma matching_measure_bounds c space :
  nonneg_space space → 0 ≤ matching_measure c space ≤ total_measure space.
Proof.
  intros Hsp. unfold matching_measure, total_measure. split.
  - apply sum_over_filter_nonneg. intros; by apply outcome_measure_nonneg.
  - apply sum_over_filter_le. intros; by apply outcome_measure_nonneg.
Qed.

(** With measures of at least zero and a positive total the quotient is
    returned. *)
Lemma compute_event_probability_returns c space :
  nonneg_space space → 0 < total_measure space →
  compute_event_probability c space
  = Return (Qc_of_Z (matching_measure c space) / Qc_of_Z (total_measure space))%Qc.
Proof.
  intros Hsp Htot. rewrite compute_event_probability_measure.
  apply truediv_unit_interval; [|done]. by apply matching_measure_bounds.
Qed.

End probability.

(** ** Enumerations *)

Lemma NoDup_product {A} (pool : list A) n : NoDup pool → NoDup (product pool n).
Proof.
  intros Hpool. induction n as [|n IH]; simpl.
  - apply NoDup_singleton.
  - apply NoDup_bind; [| |done].
    + intros x1 x2 t _ _
        (y1 & ->%list_elem_of_singleton & _)%list_elem_of_bind
        (y2 & Heq%list_elem_of_singleton & _)%list_elem_of_bind.
      by apply app_inj_tail in Heq as [-> _].
    + intros x _. apply NoDup_bind; [| |done].
      * intros y1 y2 t _ _ ->%list_elem_of_singleton Heq%list_elem_of_singleton.
        by apply app_inj_tail in Heq as [_ ->].
      * intros y _. apply NoDup_singleton.
Qed.

Lemma length_bind_singleton {A B} (g : A → B) (l : list A) :
  length (l ≫= λ y, [g y]) = length l.
Proof. induction l as [|y l IH]; [done|]. rewrite bind_cons. simpl. by rewrite IH. Qed.

Lemma length_product {A} (pool : list A) n :
  length (product pool n) = (length pool ^ n)%nat.
Proof.
  induction n as [|n IH]; [done|]. cbn [product Nat.pow]. rewrite <-IH.
  generalize (product pool n). intros l. induction l as [|x l IHl].
  - simpl. lia.
  - rewrite bind_cons, length_app, IHl, length_bind_singleton. simpl. lia.
Qed.

Lemma size_filter_list_to_set `{Countable A}
    (P : A → Prop) `{!∀ x, Decision (P x)} (l : list A) :
  NoDup l → size (filter P (list_to_set l : gset A)) = length (filter P l).
Proof.
  intros Hl.
  replace (filter P (list_to_set l : gset A))
    with (list_to_set (filter P l) : gset A).
  - apply size_list_to_set. by apply NoDup_filter.
  - apply set_eq. intros x.
    rewrite elem_of_filter, !elem_of_list_to_set, list_elem_of_filter. done.
Qed.

Lemma NoDup_dice_rolls : NoDup (product possible_rolls 6).
Proof. apply NoDup_product, NoDup_seqZ. Qed.

(** ** Histograms *)

Section sum_over_fibres.
Context `{Countable A} `{Countable K}.
Implicit Types (S : gset A) (Y : gset K) (f : A → K).

Lemma sum_over_zero (g : K → Z) Y :
  (∀ v, v ∈ Y → g v = 0) → sum_over g Y = 0.
Proof.
  induction Y as [|v Y Hv IH] using set_ind_L; intros Hg.
  - apply sum_over_empty.
  - rewrite sum_over_insert, IH, Hg by set_solver. done.
Qed.

Lemma sum_over_add (g h : K → Z) Y :
  sum_over (λ v, g v + h v) Y = sum_over g Y + sum_over h Y.
Proof.
  induction Y as [|v Y Hv IH] using set_ind_L.
  - by rewrite !sum_over_empty.
  - rewrite !sum_over_insert, IH by done. lia.
Qed.

Lemma sum_over_indicator (k : K) Y :
  sum_over (λ v, if decide (k = v) then 1 else 0) Y
  = if decide (k ∈ Y) then 1 else 0.
Proof.
  induction Y as [|v Y Hv IH] using set_ind_L.
  - rewrite sum_over_empty. by rewrite decide_False by set_solver.
  - rewrite sum_over_insert, IH by done.
    destruct (decide (k = v)) as [->|Hne].
    + rewrite (decide_False (P:=v ∈ Y)) by done.
      rewrite decide_True by set_solver. done.
    + destruct (decide (k ∈ Y)).
      * rewrite decide_True by set_solver. done.
      * rewrite decide_False; [done|].
        rewrite elem_of_union, elem_of_singleton. tauto.
Qed.

Lemma size_filter_insert (P : A → Prop) `{!∀ x, Decision (P x)} x S :
  x ∉ S →
  Z.of_nat (size (filter P ({[x]} ∪ S)))
  = (if decide (P x) then 1 else 0) + Z.of_nat (size (filter P S)).
Proof.
  intros Hx.
  rewrite <-(sum_over_one (filter P ({[x]} ∪ S))), <-(sum_over_one (filter P S)).
  by apply (sum_over_filter_insert (λ _, 1)).
Qed.

(** Counting the outcomes by the value of a statistic [f], and adding the
    counts of the values that satisfy [c], counts the outcomes whose value
    satisfies [c]. *)
Lemma sum_over_fibres f (c : K → bool) Y S :
  (∀ o, o ∈ S → f o ∈ Y) →
  sum_over (λ v, Z.of_nat (size (filter (λ o, f o = v) S))) (filter (λ v, c v) Y)
  = Z.of_nat (size (filter (λ o, c (f o)) S)).
Proof.
  induction S as [|x S Hx IH] using set_ind_L; intros HY.
  - replace (filter (λ o, c (f o)) (∅ : gset A)) with (∅ : gset A) by set_solver.
    rewrite size_empty. apply sum_over_zero. intros v _.
    replace (filter (λ o, f o = v) (∅ : gset A)) with (∅ : gset A) by set_solver.
    by rewrite size_empty.
  - rewrite size_filter_insert by done.
    rewrite <-IH by (intros; apply HY; set_solver).
    rewrite (sum_over_ext _
      (λ v, (if decide (f x = v) then 1 else 0)
            + Z.of_nat (size (filter (λ o, f o = v) S)))).
    + rewrite sum_over_add, sum_over_indicator. f_equal.
      assert (f x ∈ Y) by (apply HY; set_solver).
      destruct (decide (c (f x))).
      * rewrite decide_True; [done|]. by apply elem_of_filter.
      * rewrite decide_False; [done|]. rewrite elem_of_filter. tauto.
    + intros v _. by apply size_filter_insert.
Qed.

End sum_over_fibres.

Section count_by.
Context {A : Type} `{Countable K} (f : A → K).
Implicit Types (l : list A) (d : gmap K Z) (k v : K).

Lemma lookup_increment d k v :
  increment d k !! v = if decide (k = v) then Some (weight d k + 1) else d !! v.
Proof. unfold increment. apply lookup_insert. Qed.

Lemma count_by_snoc l x :
  count_by f (l ++ [x]) = increment (count_by f l) (f x).
Proof. unfold count_by. by rewrite foldl_snoc. Qed.

(** The loop stores, for every value that occurs, the number of its
    occurrences, and stores nothing for a value that does not occur. *)
Lemma lookup_count_by l v :
  count_by f l !! v =
    let n := Z.of_nat (length (filter (λ o, f o = v) l)) in
    if decide (n = 0) then None else Some n.
Proof.
  induction l as [|x l IH] using rev_ind; [done|].
  rewrite count_by_snoc, lookup_increment, filter_app, length_app.
  rewrite filter_cons, filter_nil. cbn zeta in *.
  destruct (decide (f x = v)) as [->|Hne]; simpl.
  - unfold weight. rewrite IH. repeat case_decide; simpl; f_equal; lia.
  - rewrite IH. repeat case_decide; f_equal; lia.
Qed.

Lemma weight_count_by l v :
  weight (count_by f l) v = Z.of_nat (length (filter (λ o, f o = v) l)).
Proof.
  unfold weight. rewrite lookup_count_by. cbn zeta.
  case_decide; simpl; lia.
Qed.

Lemma positive_weights_count_by l : positive_weights (count_by f l).
Proof.
  intros v w. rewrite lookup_count_by. cbn zeta. case_decide; [done|].
  intros [= <-]. lia.
Qed.

Lemma sum_values_insert d k w :
  sum (values (<[k:=w]> d)) = sum (values d) - weight d k + w.
Proof.
  assert (Hins : sum (values (<[k:=w]> d)) = w + sum (values (delete k d))).
  { rewrite <-insert_delete_eq. unfold values.
    rewrite (sum_Permutation _ (((k, w) :: map_to_list (delete k d)).*2)).
    - done.
    - rewrite map_to_list_insert; [done|]. apply lookup_delete_eq. }
  rewrite Hins. unfold weight. destruct (d !! k) as [w0|] eqn:Hk; simpl.
  - unfold values.
    rewrite (sum_Permutation (map_to_list d).*2
               (((k, w0) :: map_to_list (delete k d)).*2)).
    + rewrite fmap_cons, sum_cons. simpl. lia.
    + by rewrite map_to_list_delete.
  - rewrite delete_id by done. lia.
Qed.

Lemma sum_values_count_by l : sum (values (count_by f l)) = len l.
Proof.
  unfold len. induction l as [|x l IH] using rev_ind; [done|].
  rewrite count_by_snoc. unfold increment.
  rewrite sum_values_insert, IH, length_app. simpl. lia.
Qed.

End count_by.

Lemma length_filter_elements `{Countable A}
    (P : A → Prop) `{!∀ x, Decision (P x)} (S : gset A) :
  length (filter P (elements S)) = size (filter P S).
Proof.
  apply Permutation_length, NoDup_Permutation.
  - apply NoDup_filter, NoDup_elements.
  - apply NoDup_elements.
  - intros x. rewrite list_elem_of_filter, !elem_of_elements, elem_of_filter. done.
Qed.

(** The counting loop of the notebook builds a histogram. *)
Lemma count_by_is_histogram `{Countable A} `{Countable K} (f : A → K) (S : gset A) :
  is_histogram f S (count_by f (elements S)).
Proof. intros v. by rewrite weight_count_by, length_filter_elements. Qed.

Lemma is_histogram_dom `{Countable A} `{Countable K}
    (f : A → K) (S : gset A) (W : gmap K Z) o :
  is_histogram f S W → o ∈ S → f o ∈ dom W.
Proof.
  intros HW Ho. apply elem_of_dom. specialize (HW (f o)). unfold weight in HW.
  destruct (W !! f o) as [w|]; [done|]. simpl in HW. exfalso.
  assert (Hin : o ∈ filter (λ o', f o' = f o) S) by (by apply elem_of_filter).
  assert (size (filter (λ o', f o' = f o) S) ≠ 0%nat); [|lia].
  apply size_non_empty_iff. intros Hempty. by apply Hempty in Hin.
Qed.

(** The two measures of a histogram are the two counts of the outcomes. *)
Lemma is_histogram_measure `{Countable A} `{Countable K}
    (f : A → K) (S : gset A) (W : gmap K Z) (c : K → bool) :
  is_histogram f S W →
  matching_measure c (DictSpace W) = matching_measure (λ o, c (f o)) (SetSpace S).
Proof.
  intros HW. rewrite matching_measure_set. unfold matching_measure. simpl.
  rewrite (sum_over_ext _ (λ v, Z.of_nat (size (filter (λ o, f o = v) S))))
    by (intros; apply HW).
  apply sum_over_fibres. intros o Ho. by eapply is_histogram_dom.
Qed.

Lemma is_histogram_total `{Countable A} `{Countable K}
    (f : A → K) (S : gset A) (W : gmap K Z) :
  is_histogram f S W → total_measure (DictSpace W) = total_measure (SetSpace S).
Proof.
  intros HW.
  pose proof (is_histogram_measure f S W (λ _, true) HW) as Hall.
  unfold matching_measure in Hall. by rewrite !filter_all in Hall by done.
Qed.

(** ** Binomial coefficients and head counts *)

Lemma choose_gt (n k : nat) : (n < k)%nat → choose n k = 0%nat.
Proof.
  revert k. induction n as [|n IH]; intros [|k] Hk; simpl; try lia.
  rewrite !IH by lia. done.
Qed.

Lemma choose_pos (n k : nat) : (k ≤ n)%nat → (0 < choose n k)%nat.
Proof.
  revert k. induction n as [|n IH]; intros [|k] Hk; simpl; try lia.
  assert (0 < choose n k)%nat by (apply IH; lia). lia.
Qed.



(** [choose] is the binomial coefficient [n! / (k! (n-k)!)]. *)
Lemma choose_fact (n k : nat) :
  (k ≤ n)%nat → (choose n k * (fact k * fact (n - k)) = fact n)%nat.
Proof.
  revert k. induction n as [|n IH]; intros [|k] Hk; [done|lia| |].
  { change (choose (S n) 0) with 1%nat. rewrite Nat.sub_0_r.
    change (fact 0) with 1%nat. lia. }
  change (choose (S n) (S k)) with (choose n k + choose n (S k))%nat.
  replace (S n - S k)%nat with (n - k)%nat by lia.
  assert (IHk := IH k). specialize (IHk ltac:(lia)).
  destruct (decide (k = n)) as [->|Hne].
  - rewrite (choose_gt n (S n)) by lia. rewrite Nat.sub_diag in *.
    change (fact (S n)) with (S n * fact n)%nat. nia.
  - assert (IHSk := IH (S k)). specialize (IHSk ltac:(lia)).
    replace (n - k)%nat with (S (n - S k)) in * by lia.
    change (fact (S (n - S k))) with (S (n - S k) * fact (n - S k))%nat in *.
    change (fact (S n)) with (S n * fact n)%nat.
    change (fact (S k)) with (S k * fact k)%nat in *.
    assert (S k + S (n - S k) = S n)%nat as <- by lia. nia.
Qed.

Lemma heads_count_snoc (coin_flips : list string) (outcome : string) :
  heads_count (coin_flips ++ [outcome])
  = heads_count coin_flips + (if decide (outcome = "Heads") then 1 else 0).
Proof.
  unfold heads_count, len. rewrite filter_app, length_app, filter_cons, filter_nil.
  case_decide; simpl; lia.
Qed.

Lemma heads_count_nonneg (coin_flips : list string) : 0 ≤ heads_count coin_flips.
Proof. unfold heads_count, len. lia. Qed.

(** One more flip: a sequence with [k] heads extends a sequence with [k - 1]
    heads by a head, or a sequence with [k] heads by a tail. *)
Lemma count_heads_step (l : list (list string)) (k : nat) :
  length (filter (λ t, heads_count t = Z.of_nat k)
            (l ≫= λ x, ["Heads"; "Tails"] ≫= λ y, [x ++ [y]]))
  = (match k with
     | O => 0
     | S k' => length (filter (λ t, heads_count t = Z.of_nat k') l)
     end
     + length (filter (λ t, heads_count t = Z.of_nat k) l))%nat.
Proof.
  induction l as [|x l IH]; [by destruct k|].
  rewrite bind_cons, filter_app, length_app, IH. clear IH.
  change (["Heads"; "Tails"] ≫= λ y, [x ++ [y]])
    with [x ++ ["Heads"]; x ++ ["Tails"]].
  rewrite !filter_cons, filter_nil, !heads_count_snoc.
  rewrite (decide_True (P:="Heads" = "Heads")) by done.
  rewrite (decide_False (P:="Tails" = "Heads")) by done.
  pose proof (heads_count_nonneg x).
  destruct k as [|k'].
  - repeat case_decide; simpl; lia.
  - rewrite (filter_cons (λ t, heads_count t = Z.of_nat k') x l).
    repeat case_decide; simpl; lia.
Qed.

Lemma count_heads_product (n k : nat) :
  length (filter (λ t, heads_count t = Z.of_nat k) (product ["Heads"; "Tails"] n))
  = choose n k.
Proof.
  revert k. induction n as [|n IH]; intros k.
  - by destruct k.
  - cbn [product]. rewrite count_heads_step. destruct k as [|k'].
    + rewrite IH. by destruct n.
    + by rewrite !IH.
Qed.

Lemma count_heads_negative (n : nat) (v : Z) :
  v < 0 →
  length (filter (λ t, heads_count t = v) (product ["Heads"; "Tails"] n)) = 0%nat.
Proof.
  intros Hv. generalize (product ["Heads"; "Tails"] n). intros l.
  induction l as [|x l IH]; [done|]. rewrite filter_cons.
  pose proof (heads_count_nonneg x). by rewrite decide_False by lia.
Qed.

(** For a number of flips that [product] accepts, the function returns the
    dict of the counting loop. *)
Lemma generate_coin_sample_space_returns (num_flips : Z) :
  0 ≤ num_flips < 2 ^ 60 →
  generate_coin_sample_space num_flips
  = Return (count_by heads_count (product ["Heads"; "Tails"] (Z.to_nat num_flips))).
Proof.
  intros [Hn Hbound]. unfold generate_coin_sample_space.
  destruct (decide _) as [[Hlow|Hhigh]|_]; [lia|lia|].
  by rewrite decide_False by lia.
Qed.

(** ** The notebook's runs

    The embedding evaluated on the inputs of the notebook, against the
    values the notebook prints. *)

Lemma returns_value (r : PyResult Qc) (q : Qc) :
  match r with Return p => this p = this q | Raise _ => False end →
  r = Return q.
Proof.
  destruct r as [p|e]; [|done]. intros Hp. f_equal. apply Qc_is_canon.
  by rewrite Hp.
Qed.

Ltac evaluate := apply returns_value; vm_compute; reflexivity.

(** "Probability of event arising from 'is_heads' is 0.5" *)
Example coin_heads :
  compute_event_probability is_heads (SetSpace coin_sample_space)
  = Return (Q2Qc (1 # 2)).
Proof. evaluate. Qed.

(** "Probability of an event arising from 'is_heads' is 0.8" *)
Example weighted_coin_heads :
  compute_event_probability is_heads (DictSpace weighted_coin_sample_space)
  = Return (Q2Qc (4 # 5)).
Proof. evaluate. Qed.

(** "Probability of 2 boys is 0.375" *)
Example two_boys :
  compute_event_probability has_two_boys (SetSpace children_sample_space)
  = Return (Q2Qc (3 # 8)).
Proof. evaluate. Qed.

(** [assert weighted_sample_space[10] == 1] and
    [assert weighted_sample_space[9] == 10] *)
Example ten_flips :
  ∃ W, generate_coin_sample_space 10 = Return W ∧
       W !! 10 = Some 1 ∧ W !! 9 = Some 10.
Proof. eexists. split; [reflexivity|]. split; vm_compute; reflexivity. Qed.

(** "Probability of observing more that 7 heads is 0.0546875" *)
Example more_than_7_heads :
  (W ←! generate_coin_sample_space 10;
   compute_event_probability (λ x, is_in_interval x 8 10) (DictSpace W))
  = Return (Q2Qc (7 # 128)).
Proof. evaluate. Qed.

(** "Probability of observing more than 7 heads or 7 tails is 0.109375" *)
Example more_than_7_heads_or_tails :
  (W ←! generate_coin_sample_space 10;
   compute_event_probability (λ x, negb (is_in_interval x 3 7)) (DictSpace W))
  = Return (Q2Qc (7 # 64)).
Proof. evaluate. Qed.

Example negative_flips : generate_coin_sample_space (-1) = Raise ValueError.
Proof. reflexivity. Qed.

(** Weights of both signs can add up to a positive total and still leave a
    quotient too large for a double: this is why the statements below ask
    for weights of at least zero. *)
Example huge_quotient :
  compute_event_probability (λ x, bool_decide (x = 1))
    (DictSpace {[1 := 2 ^ 1024; 2 := 1 - 2 ^ 1024]})
  = Raise OverflowError.
Proof. vm_compute. reflexivity. Qed.

(** * The claims *)

(** C1. On a non-empty set [compute_event_probability] returns the number of
    elements that satisfy the condition divided by the number of elements; on
    a non-empty dict with positive integer weights it returns the summed
    weight of the keys that satisfy the condition divided by the summed
    weight of all keys. *)
Theorem compute_event_probability_spec `{Countable A} (c : A → bool) :
  (∀ s : gset A, s ≠ ∅ →
     compute_event_probability c (SetSpace s)
     = Return (Qc_of_Z (Z.of_nat (size (filter (λ o, c o) s)))
               / Qc_of_Z (Z.of_nat (size s)))%Qc) ∧
  (∀ d : gmap A Z, d ≠ ∅ → positive_weights d →
     compute_event_probability c (DictSpace d)
     = Return (Qc_of_Z (sum_over (weight d) (filter (λ o, c o) (dom d)))
               / Qc_of_Z (sum_over (weight d) (dom d)))%Qc).
Proof.
  split.
  - intros s Hs.
    rewrite <-matching_measure_set, <-total_measure_set.
    apply compute_event_probability_returns; [done|].
    by apply nonempty_total_measure.
  - intros d Hd Hpos.
    apply (compute_event_probability_returns c (DictSpace d)).
    + by apply positive_nonneg_weights.
    + by apply nonempty_total_measure.
Qed.

Lemma compute_event_probability_spec_witness :
  compute_event_probability is_heads (SetSpace coin_sample_space)
  = Return (Q2Qc (1 # 2)) ∧
  compute_event_probability is_heads (DictSpace weighted_coin_sample_space)
  = Return (Q2Qc (4 # 5)).
Proof.
  destruct (compute_event_probability_spec is_heads) as [Hset Hdict]. split.
  - rewrite Hset by done. reflexivity.
  - rewrite Hdict.
    + reflexivity.
    + done.
    + apply (bool_decide_unpack _). vm_compute. exact I.
Defined.

(** C2. When the dict [W] is the histogram of a space [S] of equally likely
    outcomes (the weight of a value is its multiplicity among the values
    [f o] of the outcomes), the dict form and the set form of
    [compute_event_probability] give the same result for every condition
    [c]: the same probability, or the same exception when [S] is empty.  In
    particular this holds when the keys of [W] are the elements of [S] and
    every weight is 1. *)
Theorem histogram_equivalence `{Countable A} `{Countable K} (c : K → bool) :
  (∀ (f : A → K) (S : gset A) (W : gmap K Z),
     is_histogram f S W →
     compute_event_probability c (DictSpace W)
     = compute_event_probability (λ o, c (f o)) (SetSpace S)) ∧
  (∀ (S : gset K) (W : gmap K Z),
     dom W = S → (∀ o, o ∈ S → W !! o = Some 1) →
     compute_event_probability c (DictSpace W)
     = compute_event_probability c (SetSpace S)).
Proof.
  assert (Hgen : ∀ `{Countable B} (f : B → K) (S : gset B) (W : gmap K Z),
    is_histogram f S W →
    compute_event_probability c (DictSpace W)
    = compute_event_probability (λ o, c (f o)) (SetSpace S)).
  { intros B ?? f S W HW. rewrite !compute_event_probability_measure.
    by rewrite (is_histogram_measure f S W), (is_histogram_total f S W). }
  split; [apply Hgen|].
  intros S W Hdom Hone. apply (Hgen _ _ _ id). intros v. unfold weight.
  destruct (decide (v ∈ S)) as [Hv|Hv].
  - rewrite (Hone v Hv). simpl.
    replace (filter (λ o, id o = v) S) with ({[v]} : gset K).
    + by rewrite size_singleton.
    + apply set_eq. intros o. rewrite elem_of_filter, elem_of_singleton.
      unfold id. split; [by intros ->|by intros [? _]].
  - assert (W !! v = None) as -> by (apply not_elem_of_dom; by rewrite Hdom).
    replace (filter (λ o, id o = v) S) with (∅ : gset K).
    + by rewrite size_empty.
    + symmetry. apply set_eq. intros o. rewrite elem_of_filter. unfold id.
      split; [|by intros ?%not_elem_of_empty]. by intros [-> ?].
Qed.

Lemma histogram_equivalence_witness :
  compute_event_probability (λ x, bool_decide (x = 21))
    (DictSpace weighted_dice_sample_space)
  = compute_event_probability has_sum_of_21 (SetSpace dice_sample_space) ∧
  compute_event_probability is_heads (DictSpace {["Heads" := 1; "Tails" := 1]})
  = compute_event_probability is_heads (SetSpace coin_sample_space).
Proof.
  split.
  - exact (proj1 (histogram_equivalence (λ x, bool_decide (x = 21)))
             sum dice_sample_space weighted_dice_sample_space
             (count_by_is_histogram sum dice_sample_space)).
  - apply (proj2 (histogram_equivalence (A:=string) is_heads)).
    + reflexivity.
    + intros o. unfold coin_sample_space.
      rewrite elem_of_union, !elem_of_singleton. by intros [->| ->].
Defined.

(** C3. Over a space of zero total measure (the empty set, or a dict whose
    weights add up to zero) [compute_event_probability] raises
    [ZeroDivisionError], which no handler in the function catches; over a
    space of positive total measure (a non-empty set, or a dict of weights
    that are at least zero and add up to more than zero) it returns a
    value. *)
Theorem compute_event_probability_zero_measure `{Countable A} (c : A → bool) :
  compute_event_probability c (SetSpace ∅) = Raise ZeroDivisionError ∧
  (∀ d : gmap A Z, sum (values d) = 0 →
     compute_event_probability c (DictSpace d) = Raise ZeroDivisionError) ∧
  (∀ s : gset A, s ≠ ∅ →
     ∃ p, compute_event_probability c (SetSpace s) = Return p) ∧
  (∀ d : gmap A Z, nonneg_weights d → 0 < sum (values d) →
     ∃ p, compute_event_probability c (DictSpace d) = Return p).
Proof.
  split; [|split; [|split]].
  - rewrite compute_event_probability_measure, total_measure_set, size_empty.
    apply truediv_by_zero.
  - intros d Hd.
    rewrite compute_event_probability_measure, total_measure_dict, Hd.
    apply truediv_by_zero.
  - intros s Hs. eexists. apply compute_event_probability_returns; [done|].
    by apply (nonempty_total_measure (SetSpace s)).
  - intros d Hnn Hd. eexists.
    apply (compute_event_probability_returns c (DictSpace d)); [done|].
    by rewrite total_measure_dict.
Qed.

Lemma compute_event_probability_zero_measure_witness :
  compute_event_probability is_heads (DictSpace {["Heads" := 0]})
  = Raise ZeroDivisionError ∧
  (∃ p, compute_event_probability is_heads (SetSpace coin_sample_space) = Return p) ∧
  (∃ p, compute_event_probability is_heads (DictSpace weighted_coin_sample_space)
        = Return p).
Proof.
  destruct (compute_event_probability_zero_measure is_heads)
    as (_ & Hzero & Hset & Hdict).
  split; [|split].
  - apply Hzero. reflexivity.
  - apply Hset. done.
  - apply Hdict; [|reflexivity].
    apply (bool_decide_unpack _). vm_compute. exact I.
Defined.

(** C4. [get_matching_event] returns exactly the outcomes of the space that
    satisfy the condition: an outcome is in the event if and only if it is an
    element of the set (for a set) or a key of the dict (for a dict, whatever
    its weight) and the condition holds of it. *)
Theorem get_matching_event_spec `{Countable A} (c : A → bool) (o : A) :
  (∀ s : gset A,
     o ∈ get_matching_event c (SetSpace s) ↔ o ∈ s ∧ c o = true) ∧
  (∀ d : gmap A Z,
     o ∈ get_matching_event c (DictSpace d) ↔ is_Some (d !! o) ∧ c o = true).
Proof.
  split.
  - intros s. rewrite get_matching_event_set, elem_of_filter, Is_true_true. tauto.
  - intros d.
    rewrite get_matching_event_dict, elem_of_filter, elem_of_dom, Is_true_true.
    tauto.
Qed.

(** C5. On a non-empty sample space the probability of a condition and the
    probability of its negation add up to exactly 1. *)
Theorem compute_event_probability_complement `{Countable A}
    (c : A → bool) (space : SampleSpace A) :
  nonempty_space space →
  ∃ p q : Qc,
    compute_event_probability c space = Return p ∧
    compute_event_probability (λ o, negb (c o)) space = Return q ∧
    (p + q = 1)%Qc.
Proof.
  intros Hsp.
  pose proof (nonempty_total_measure space Hsp) as Htot.
  pose proof (nonempty_nonneg_space space Hsp) as Hnn.
  eexists _, _. split; [|split]; [by apply compute_event_probability_returns..|].
  rewrite Qcdiv_add.
  replace (matching_measure c space + matching_measure (λ o, negb (c o)) space)
    with (total_measure space); [apply Qcdiv_diag; lia|].
  unfold matching_measure, total_measure.
  rewrite <-(sum_over_filter_split _ (λ o, c o) (outcomes space)). f_equal.
  f_equal. apply set_eq. intros o. rewrite !elem_of_filter.
  destruct (c o); simpl; tauto.
Qed.

Lemma compute_event_probability_complement_witness :
  ∃ p q : Qc,
    compute_event_probability is_heads (SetSpace coin_sample_space) = Return p ∧
    compute_event_probability (λ o, negb (is_heads o)) (SetSpace coin_sample_space)
    = Return q ∧
    (p + q = 1)%Qc.
Proof. apply compute_event_probability_complement. done. Defined.

(** C6. [is_in_interval] holds of a number exactly when it lies between the
    two bounds, both included; and on a non-empty sample space of integers
    the interval from [lo - 1] to [hi + 1] is at least as probable as the
    interval from [lo] to [hi]. *)
Theorem is_in_interval_widen (lo hi : Z) (space : SampleSpace Z) :
  (∀ v : Z, is_in_interval v lo hi = true ↔ lo ≤ v ≤ hi) ∧
  (nonempty_space space →
   ∃ p q : Qc,
     compute_event_probability (λ v, is_in_interval v lo hi) space = Return p ∧
     compute_event_probability (λ v, is_in_interval v (lo - 1) (hi + 1)) space
     = Return q ∧
     (p ≤ q)%Qc).
Proof.
  assert (Hiff : ∀ a b v : Z, is_in_interval v a b = true ↔ a ≤ v ≤ b).
  { intros a b v. unfold is_in_interval. rewrite andb_true_iff, !Z.leb_le. done. }
  split; [apply Hiff|]. intros Hsp.
  pose proof (nonempty_total_measure space Hsp) as Htot.
  pose proof (nonempty_nonneg_space space Hsp) as Hnn.
  eexists _, _. split; [|split]; [by apply compute_event_probability_returns..|].
  apply Qcdiv_le_mono; [done|]. unfold matching_measure.
  apply sum_over_filter_mono.
  - intros; by apply outcome_measure_nonneg.
  - intros v. rewrite !Is_true_true, !Hiff. lia.
Qed.

Lemma is_in_interval_widen_witness :
  ∃ p q : Qc,
    compute_event_probability (λ v, is_in_interval v 2 3)
      (DictSpace {[1 := 1; 2 := 3; 3 := 3; 4 := 1]}) = Return p ∧
    compute_event_probability (λ v, is_in_interval v (2 - 1) (3 + 1))
      (DictSpace {[1 := 1; 2 := 3; 3 := 3; 4 := 1]}) = Return q ∧
    (p ≤ q)%Qc.
Proof.
  apply is_in_interval_widen. split; [done|].
  apply (bool_decide_unpack _). vm_compute. exact I.
Defined.

(** C7. On a non-empty sample space (a non-empty set, or a non-empty dict
    with positive integer weights) [compute_event_probability] returns a
    value between 0 and 1, both included. *)
Theorem compute_event_probability_unit_interval `{Countable A}
    (c : A → bool) (space : SampleSpace A) :
  nonempty_space space →
  ∃ p : Qc, compute_event_probability c space = Return p ∧ (0 ≤ p ≤ 1)%Qc.
Proof.
  intros Hsp.
  pose proof (nonempty_total_measure space Hsp) as Htot.
  pose proof (nonempty_nonneg_space space Hsp) as Hnn.
  eexists. split; [by apply compute_event_probability_returns|].
  apply Qcdiv_unit_interval; [|done]. by apply matching_measure_bounds.
Qed.

Lemma compute_event_probability_unit_interval_witness :
  ∃ p : Qc,
    compute_event_probability is_heads (DictSpace weighted_coin_sample_space)
    = Return p ∧ (0 ≤ p ≤ 1)%Qc.
Proof.
  apply compute_event_probability_unit_interval. split; [done|].
  apply (bool_decide_unpack _). vm_compute. exact I.
Defined.

(** C8. The sample space of six die rolls has 46656 outcomes, and the
    probability that the six rolls add up to 21 is exactly 4332/46656. *)
Theorem dice_sum_21_probability :
  Z.of_nat (size dice_sample_space) = 46656 ∧
  compute_event_probability has_sum_of_21 (SetSpace dice_sample_space)
  = Return (Qc_of_Z 4332 / Qc_of_Z 46656)%Qc.
Proof.
  assert (Hsize : Z.of_nat (size dice_sample_space) = 46656).
  { unfold dice_sample_space. rewrite size_list_to_set by apply NoDup_dice_rolls.
    vm_compute. reflexivity. }
  assert (Hevent :
    Z.of_nat (size (filter (λ o, has_sum_of_21 o) dice_sample_space)) = 4332).
  { unfold dice_sample_space.
    rewrite size_filter_list_to_set by apply NoDup_dice_rolls.
    vm_compute. reflexivity. }
  split; [done|].
  rewrite compute_event_probability_measure.
  rewrite matching_measure_set, total_measure_set, Hsize, Hevent.
  apply truediv_unit_interval; lia.
Qed.




(** C10. On a non-empty list of ints [frequency_heads] returns the number of
    elements equal to 1 divided by the length of the list, a value between 0
    and 1; on the empty list it raises [ZeroDivisionError]. *)
Theorem frequency_heads_spec :
  frequency_heads [] = Raise ZeroDivisionError ∧
  ∀ l : list Z, l ≠ [] →
    let total_heads := Z.of_nat (length (filter (λ head, head = 1) l)) in
    let p := (Qc_of_Z total_heads / Qc_of_Z (Z.of_nat (length l)))%Qc in
    frequency_heads l = Return p ∧ (0 ≤ p ≤ 1)%Qc.
Proof.
  split; [done|]. intros l Hl total_heads p.
  assert (0 < Z.of_nat (length l)) by (destruct l; [done|simpl; lia]).
  pose proof (length_filter (λ head, head = 1) l).
  assert (0 ≤ total_heads ≤ Z.of_nat (length l)) by (unfold total_heads; lia).
  split.
  - by apply truediv_unit_interval.
  - by apply Qcdiv_unit_interval.
Qed.

Lemma frequency_heads_spec_witness :
  frequency_heads [1; 1; 0; 1; 1; 1; 1; 1; 1; 0] = Return (Q2Qc (8 # 10)).
Proof.
  destruct frequency_heads_spec as [_ Hfreq].
  destruct (Hfreq [1; 1; 0; 1; 1; 1; 1; 1; 1; 0]) as [-> _]; [done|].
  reflexivity.
Defined.

(** * Further properties of the notebooks' code *)

(** ** Exceptions of true division *)

Lemma Return_inj {A} (a b : A) : Return a = Return b → a = b.
Proof.
  intros Heq.
  exact (f_equal (λ r, match r with Return x => x | Raise _ => a end) Heq).
Qed.

Lemma truediv_raises (a b : Z) (e : PyError) :
  truediv a b = Raise e →
  (e = ZeroDivisionError ∧ b = 0) ∨ (e = OverflowError ∧ b ≠ 0).
Proof.
  unfold truediv. repeat case_decide; intros [= <-]; auto.
Qed.

Lemma truediv_scale (w a b : Z) : w ≠ 0 → truediv (w * a) (w * b) = truediv a b.
Proof.
  intros Hw. unfold truediv.
  destruct (decide (b = 0)) as [->|Hb].
  - by rewrite Z.mul_0_r.
  - rewrite (decide_False (P:=w * b = 0)) by nia.
    rewrite !Z.abs_mul.
    assert (0 < Z.abs w) by lia.
    destruct (decide (float_overflow_bound * Z.abs b ≤ Z.abs a)).
    + rewrite decide_True by nia. done.
    + rewrite decide_False by nia. f_equal.
      rewrite !Z2Qc_inj_mul. unfold Qcdiv.
      rewrite Qcinv_mult_distr.
      assert (Qc_of_Z w ≠ 0%Qc) as Hw'.
      { rewrite <-Z2Qc_inj_0. by intros ?%Z2Qc_inj. }
      rewrite (Qcmult_comm (/ Qc_of_Z w)), Qcmult_assoc.
      rewrite <-(Qcmult_assoc (Qc_of_Z w * Qc_of_Z a)).
      rewrite (Qcmult_comm (Qc_of_Z w)), <-!Qcmult_assoc.
      f_equal. rewrite (Qcmult_comm (/ Qc_of_Z b)), Qcmult_assoc, Qcmult_inv_r by done.
      apply Qcmult_1_l.
Qed.

Section measure_algebra.
Context `{Countable A}.
Implicit Types (c : A → bool) (s : gset A) (d : gmap A Z) (o : A) (X : gset A).
Implicit Types (space : SampleSpace A) (g : A → Z).

Lemma filter_ext_in (P Q : A → Prop) `{!∀ x, Decision (P x)} `{!∀ x, Decision (Q x)} X :
  (∀ x, x ∈ X → P x ↔ Q x) → filter P X = filter Q X.
Proof.
  intros HPQ. apply set_eq. intros x. rewrite !elem_of_filter.
  split; intros [? ?]; (split; [by apply (HPQ x)|done]).
Qed.

Lemma filter_empty_gset (P : A → Prop) `{!∀ x, Decision (P x)} :
  filter P (∅ : gset A) = ∅.
Proof.
  apply set_eq. intros y. rewrite elem_of_filter, elem_of_empty. tauto.
Qed.

Lemma matching_measure_ext c1 c2 space :
  (∀ o, o ∈ outcomes space → c1 o = c2 o) →
  matching_measure c1 space = matching_measure c2 space.
Proof.
  intros Hc. unfold matching_measure. f_equal. apply filter_ext_in.
  intros o Ho. by rewrite (Hc o Ho).
Qed.

Lemma sum_over_filter_or g (P Q : A → Prop)
    `{!∀ x, Decision (P x)} `{!∀ x, Decision (Q x)} X :
  (∀ x, x ∈ X → ¬ (P x ∧ Q x)) →
  sum_over g (filter (λ x, P x ∨ Q x) X)
  = sum_over g (filter P X) + sum_over g (filter Q X).
Proof.
  induction X as [|x X Hx IH] using set_ind_L; intros Hdisj.
  - rewrite !filter_empty_gset.
    by rewrite sum_over_empty.
  - rewrite !sum_over_filter_insert by done.
    rewrite IH by (intros y Hy; apply Hdisj; rewrite elem_of_union; auto).
    assert (¬ (P x ∧ Q x)).
    { apply Hdisj. rewrite elem_of_union, elem_of_singleton. auto. }
    destruct (decide (P x)), (decide (Q x)), (decide (P x ∨ Q x)); try tauto; lia.
Qed.

Lemma matching_measure_or c1 c2 space :
  (∀ o, o ∈ outcomes space → ¬ (c1 o = true ∧ c2 o = true)) →
  matching_measure (λ o, c1 o || c2 o) space
  = matching_measure c1 space + matching_measure c2 space.
Proof.
  intros Hdisj. unfold matching_measure.
  rewrite <-sum_over_filter_or.
  - f_equal. apply filter_ext_in. intros o _. rewrite <-orb_True. done.
  - intros o Ho. rewrite !Is_true_true. by apply Hdisj.
Qed.

Lemma matching_measure_mono c1 c2 space :
  nonneg_space space →
  (∀ o, o ∈ outcomes space → c1 o = true → c2 o = true) →
  matching_measure c1 space ≤ matching_measure c2 space.
Proof.
  intros Hnn Himp. unfold matching_measure.
  rewrite (filter_ext_in (λ o, c1 o) (λ o, c1 o ∧ c2 o)).
  - apply sum_over_filter_mono; [|tauto].
    intros; by apply outcome_measure_nonneg.
  - intros o Ho. rewrite !Is_true_true. specialize (Himp o Ho). tauto.
Qed.


Lemma sum_over_filter_zero g (P : A → Prop) `{!∀ x, Decision (P x)} X :
  (∀ x, x ∈ X → 0 < g x) →
  sum_over g (filter P X) = 0 ↔ ∀ x, x ∈ X → ¬ P x.
Proof.
  intros Hg. split.
  - intros Hzero x Hx HP.
    assert (0 < sum_over g (filter P X)); [|lia].
    apply sum_over_pos.
    + intros Hempty. assert (x ∈ filter P X) as Hin by (by apply elem_of_filter).
      rewrite Hempty in Hin. by apply not_elem_of_empty in Hin.
    + intros y [_ Hy]%elem_of_filter. by apply Hg.
  - intros Hnone.
    replace (filter P X) with (∅ : gset A); [apply sum_over_empty|].
    symmetry. apply set_eq. intros y. rewrite elem_of_filter, elem_of_empty.
    split; [|done]. intros [? ?]. by apply (Hnone y).
Qed.

Lemma nonempty_outcome_measure_pos space o :
  nonempty_space space → o ∈ outcomes space → 0 < outcome_measure space o.
Proof.
  destruct space as [s|d]; simpl; [lia|].
  intros [_ Hpos] [w Hw]%elem_of_dom. unfold weight. rewrite Hw. simpl.
  by apply (Hpos o w).
Qed.

Lemma matching_measure_zero c space :
  nonempty_space space →
  matching_measure c space = 0 ↔ ∀ o, o ∈ outcomes space → c o = false.
Proof.
  intros Hsp. unfold matching_measure. rewrite sum_over_filter_zero.
  - split; intros Hc o Ho; apply Is_true_false; by apply Hc.
  - intros o Ho. by apply nonempty_outcome_measure_pos.
Qed.

Lemma matching_measure_negb c space :
  matching_measure c space + matching_measure (λ o, negb (c o)) space
  = total_measure space.
Proof.
  unfold matching_measure, total_measure.
  rewrite <-(sum_over_filter_split _ (λ o, c o) (outcomes space)). f_equal.
  f_equal. apply filter_ext_in. intros o _. destruct (c o); simpl; tauto.
Qed.

Lemma Qcdiv_eq_zero (a b : Z) :
  b ≠ 0 → (Qc_of_Z a / Qc_of_Z b = 0)%Qc ↔ a = 0.
Proof.
  intros Hb. split; [|intros ->; apply Qcdiv_zero].
  intros Hq. apply Z2Qc_inj. rewrite Z2Qc_inj_0.
  assert (Qc_of_Z b ≠ 0%Qc) as Hb'.
  { rewrite <-Z2Qc_inj_0. by intros ?%Z2Qc_inj. }
  rewrite <-(Qcmult_div_r (Qc_of_Z a) (Qc_of_Z b)) by done.
  rewrite Hq. apply Qcmult_0_r.
Qed.

Lemma Qcdiv_eq_one (a b : Z) :
  b ≠ 0 → (Qc_of_Z a / Qc_of_Z b = 1)%Qc ↔ a = b.
Proof.
  intros Hb. split; [|intros ->; by apply Qcdiv_diag].
  intros Hq. apply Z2Qc_inj.
  assert (Qc_of_Z b ≠ 0%Qc) as Hb'.
  { rewrite <-Z2Qc_inj_0. by intros ?%Z2Qc_inj. }
  rewrite <-(Qcmult_div_r (Qc_of_Z a) (Qc_of_Z b)) by done.
  rewrite Hq. apply Qcmult_1_r.
Qed.

End measure_algebra.

Section unweighted.
Context `{Countable A}.
Implicit Types (c : A → bool) (s : gset A) (d : gmap A Z) (o : A) (X : gset A).
Implicit Types (space : SampleSpace A) (g : A → Z).

Lemma compute_probability_measure c space :
  compute_probability c space
  = truediv (Z.of_nat (size (filter (λ o, c o) (outcomes space))))
            (Z.of_nat (size (outcomes space))).
Proof.
  unfold compute_probability. rewrite get_matching_event_outcomes.
  destruct space as [s|d]; simpl; [done|].
  unfold len. by rewrite length_fmap, length_map_to_list, size_dom.
Qed.

Lemma sum_over_const (w : Z) g X :
  (∀ x, x ∈ X → g x = w) → sum_over g X = w * Z.of_nat (size X).
Proof.
  intros Hg. rewrite (sum_over_ext g (λ _, w)) by done. clear Hg.
  induction X as [|x X Hx IH] using set_ind_L.
  - rewrite sum_over_empty, size_empty. lia.
  - rewrite sum_over_insert, IH by done.
    rewrite size_union, size_singleton.
    + lia.
    + intros y ->%elem_of_singleton. done.
Qed.

End unweighted.

(** X1. [compute_event_probability] never raises [KeyError], although it
    indexes the dict: on a set the only exception is [ZeroDivisionError], and
    only for the empty set; on a dict it is [ZeroDivisionError], and only
    when the values add up to zero, or [OverflowError], and only when some
    weight is negative. *)
Theorem compute_event_probability_raises `{Countable A}
    (c : A → bool) (space : SampleSpace A) (e : PyError) :
  compute_event_probability c space = Raise e →
  match space with
  | SetSpace s => e = ZeroDivisionError ∧ s = ∅
  | DictSpace d =>
      (e = ZeroDivisionError ∧ sum (values d) = 0) ∨
      (e = OverflowError ∧ ¬ nonneg_weights d)
  end.
Proof.
  intros Hraise.
  assert (Hreturns : nonneg_space space → total_measure space ≠ 0 → False).
  { intros Hnn Htot.
    pose proof (matching_measure_bounds c space Hnn).
    rewrite compute_event_probability_returns in Hraise by (done || lia). done. }
  rewrite compute_event_probability_measure in Hraise.
  apply truediv_raises in Hraise as [[-> Hzero]|[-> Hnz]].
  - destruct space as [s|d].
    + split; [done|]. rewrite total_measure_set in Hzero.
      apply leibniz_equiv, size_empty_iff. lia.
    + left. by rewrite <-total_measure_dict.
  - destruct space as [s|d].
    + by destruct Hreturns.
    + right. split; [done|]. intros Hnn. by apply Hreturns.
Qed.

Lemma compute_event_probability_raises_witness :
  (ZeroDivisionError = ZeroDivisionError ∧ (∅ : gset string) = ∅) ∧
  ((OverflowError = ZeroDivisionError ∧
    sum (values ({[1 := 2 ^ 1024; 2 := 1 - 2 ^ 1024]} : gmap Z Z)) = 0) ∨
   (OverflowError = OverflowError ∧
    ¬ nonneg_weights ({[1 := 2 ^ 1024; 2 := 1 - 2 ^ 1024]} : gmap Z Z))).
Proof.
  split.
  - apply (compute_event_probability_raises is_heads (SetSpace ∅)). reflexivity.
  - apply (compute_event_probability_raises (λ x, bool_decide (x = 1))
             (DictSpace {[1 := 2 ^ 1024; 2 := 1 - 2 ^ 1024]})).
    vm_compute. reflexivity.
Defined.

Lemma bool_decide_ext_eqb (o : list Z) : has_sum_of_21 o = (sum o =? 21).
Proof.
  unfold has_sum_of_21. destruct (Z.eqb_spec (sum o) 21) as [Heq|Hne].
  - by apply bool_decide_eq_true.
  - by apply bool_decide_eq_false.
Qed.

(** X2. Two conditions that agree on every outcome of the space (every
    element of the set, every key of the dict) give the same result, value
    or exception: a lambda and a named function for the same test are
    interchangeable. *)
Theorem compute_event_probability_ext `{Countable A}
    (c1 c2 : A → bool) (space : SampleSpace A) :
  (∀ o, o ∈ outcomes space → c1 o = c2 o) →
  compute_event_probability c1 space = compute_event_probability c2 space.
Proof.
  intros Hc. rewrite !compute_event_probability_measure.
  by rewrite (matching_measure_ext c1 c2).
Qed.

Lemma compute_event_probability_ext_witness :
  compute_event_probability (λ x, sum x =? 21) (SetSpace dice_sample_space)
  = compute_event_probability has_sum_of_21 (SetSpace dice_sample_space).
Proof.
  exact (compute_event_probability_ext (λ x, sum x =? 21) has_sum_of_21
           (SetSpace dice_sample_space)
           (λ o _, eq_sym (bool_decide_ext_eqb o))).
Defined.

(** X3. On a non-empty sample space, a condition that implies another
    on every outcome has at most the probability of the other. *)
Theorem compute_event_probability_mono `{Countable A}
    (c1 c2 : A → bool) (space : SampleSpace A) :
  nonempty_space space →
  (∀ o, o ∈ outcomes space → c1 o = true → c2 o = true) →
  ∃ p q : Qc,
    compute_event_probability c1 space = Return p ∧
    compute_event_probability c2 space = Return q ∧
    (p ≤ q)%Qc.
Proof.
  intros Hsp Himp.
  pose proof (nonempty_total_measure space Hsp) as Htot.
  pose proof (nonempty_nonneg_space space Hsp) as Hnn.
  eexists _, _. split; [|split]; [by apply compute_event_probability_returns..|].
  apply Qcdiv_le_mono; [done|]. by apply matching_measure_mono.
Qed.

Lemma compute_event_probability_mono_witness :
  ∃ p q : Qc,
    compute_event_probability is_heads (DictSpace weighted_coin_sample_space)
    = Return p ∧
    compute_event_probability is_heads_or_tails (DictSpace weighted_coin_sample_space)
    = Return q ∧
    (p ≤ q)%Qc.
Proof.
  apply compute_event_probability_mono.
  - split; [done|]. apply (bool_decide_unpack _). vm_compute. exact I.
  - intros o _. unfold is_heads, is_heads_or_tails.
    rewrite !bool_decide_eq_true. intros ->.
    rewrite elem_of_union, !elem_of_singleton. by left.
Defined.

Section events_algebra.
Context `{Countable A}.
Implicit Types (c : A → bool) (d : gmap A Z) (space : SampleSpace A).

Lemma get_matching_event_or c1 c2 space :
  get_matching_event (λ o, c1 o || c2 o) space
  = get_matching_event c1 space ∪ get_matching_event c2 space.
Proof.
  rewrite !get_matching_event_outcomes. apply set_eq. intros o.
  rewrite elem_of_union, !elem_of_filter, orb_True. tauto.
Qed.

Lemma get_matching_event_disjoint c1 c2 space :
  (∀ o, o ∈ outcomes space → ¬ (c1 o = true ∧ c2 o = true)) →
  get_matching_event c1 space ## get_matching_event c2 space.
Proof.
  intros Hexcl. rewrite !get_matching_event_outcomes.
  intros o [H1 Ho]%elem_of_filter [H2 _]%elem_of_filter.
  apply (Hexcl o Ho). by rewrite <-!Is_true_true.
Qed.

Lemma len_elements_union (X Y : gset A) :
  X ## Y → len (elements (X ∪ Y)) = len (elements X) + len (elements Y).
Proof.
  intros Hdisj. unfold len.
  change (length (elements (X ∪ Y))) with (size (X ∪ Y)).
  rewrite size_union by done. unfold size, set_size. simpl. lia.
Qed.

(** Reading the weights of an event of the dict never raises: the event
    holds keys only. *)
Lemma event_size_get_matching_event c d :
  event_size d (get_matching_event c (DictSpace d))
  = Return (matching_measure c (DictSpace d)).
Proof.
  unfold event_size, matching_measure. rewrite get_matching_event_outcomes.
  rewrite for_each_getitem; [done|].
  intros k [_ Hk]%elem_of_elements%elem_of_filter. done.
Qed.

End events_algebra.

(** X4. When no outcome of the space satisfies two conditions at once, the
    event of "one or the other" is the union of the two events, the two
    events share no outcome, the number of its outcomes is the sum of
    theirs, and on a dict its [event_size] is the sum of their event sizes
    (all three are read without [KeyError]). *)
Theorem event_additive `{Countable A} (c1 c2 : A → bool) (space : SampleSpace A) :
  (∀ o, o ∈ outcomes space → ¬ (c1 o = true ∧ c2 o = true)) →
  let event1 := get_matching_event c1 space in
  let event2 := get_matching_event c2 space in
  let event := get_matching_event (λ o, c1 o || c2 o) space in
  event = event1 ∪ event2 ∧
  event1 ## event2 ∧
  len (elements event) = len (elements event1) + len (elements event2) ∧
  ∀ d, space = DictSpace d →
    ∃ n1 n2 : Z,
      event_size d event1 = Return n1 ∧
      event_size d event2 = Return n2 ∧
      event_size d event = Return (n1 + n2).
Proof.
  intros Hexcl event1 event2 event.
  pose proof (get_matching_event_disjoint c1 c2 space Hexcl) as Hdisj.
  split; [apply get_matching_event_or|]. split; [done|]. split.
  - unfold event. rewrite get_matching_event_or. by apply len_elements_union.
  - intros d ->. unfold event, event1, event2.
    rewrite !event_size_get_matching_event. eexists _, _.
    split; [done|]. split; [done|]. by rewrite matching_measure_or.
Qed.

Lemma event_additive_witness :
  let space := DictSpace ({[1 := 1; 2 := 3; 3 := 3; 4 := 1]} : gmap Z Z) in
  let event1 := get_matching_event (λ v, is_in_interval v 0 2) space in
  let event2 := get_matching_event (λ v, is_in_interval v 4 10) space in
  let event :=
    get_matching_event (λ v, is_in_interval v 0 2 || is_in_interval v 4 10) space in
  event = event1 ∪ event2 ∧
  event1 ## event2 ∧
  len (elements event) = len (elements event1) + len (elements event2) ∧
  ∀ d, space = DictSpace d →
    ∃ n1 n2 : Z,
      event_size d event1 = Return n1 ∧
      event_size d event2 = Return n2 ∧
      event_size d event = Return (n1 + n2).
Proof.
  apply (event_additive (λ v, is_in_interval v 0 2) (λ v, is_in_interval v 4 10)).
  intros o _. unfold is_in_interval. rewrite !andb_true_iff, !Z.leb_le. lia.
Defined.

(** X5. On a non-empty sample space, a condition that no outcome satisfies
    has probability 0 and a condition that every outcome satisfies has
    probability 1. *)
Theorem compute_event_probability_impossible_certain `{Countable A}
    (c : A → bool) (space : SampleSpace A) :
  nonempty_space space →
  ((∀ o, o ∈ outcomes space → c o = false) →
   compute_event_probability c space = Return 0%Qc) ∧
  ((∀ o, o ∈ outcomes space → c o = true) →
   compute_event_probability c space = Return 1%Qc).
Proof.
  intros Hsp.
  pose proof (nonempty_total_measure space Hsp) as Htot.
  pose proof (nonempty_nonneg_space space Hsp) as Hnn.
  rewrite compute_event_probability_returns by done. split.
  - intros Hnone. f_equal. apply Qcdiv_eq_zero; [lia|].
    by apply matching_measure_zero.
  - intros Hall. f_equal. apply Qcdiv_eq_one; [lia|].
    pose proof (matching_measure_negb c space) as Hsplit.
    assert (matching_measure (λ o, negb (c o)) space = 0); [|lia].
    apply matching_measure_zero; [done|].
    intros o Ho. by apply negb_false_iff, Hall.
Qed.

Lemma compute_event_probability_impossible_certain_witness :
  compute_event_probability is_neither (DictSpace weighted_coin_sample_space)
  = Return 0%Qc ∧
  compute_event_probability is_heads_or_tails (DictSpace weighted_coin_sample_space)
  = Return 1%Qc.
Proof.
  assert (Hsp : nonempty_space (DictSpace weighted_coin_sample_space)).
  { split; [done|]. apply (bool_decide_unpack _). vm_compute. exact I. }
  assert (Heither : ∀ o, o ∈ outcomes (DictSpace weighted_coin_sample_space) →
                         is_heads_or_tails o = true).
  { intros o Ho. simpl in Ho. apply elem_of_dom in Ho as [w Hw].
    unfold is_heads_or_tails.
    apply bool_decide_eq_true. rewrite elem_of_union, !elem_of_singleton.
    unfold weighted_coin_sample_space in Hw.
    apply lookup_insert_Some in Hw as [[<- _]|[_ [<- _]%lookup_singleton_Some]]; auto. }
  split.
  - apply (compute_event_probability_impossible_certain is_neither _ Hsp).
    intros o Ho. unfold is_neither. by rewrite (Heither o Ho).
  - by apply (compute_event_probability_impossible_certain is_heads_or_tails _ Hsp).
Defined.

(** X23. On a non-empty set the probability is 0 exactly when no element
    satisfies the condition and 1 exactly when every element does. *)
Theorem compute_event_probability_set_zero_one `{Countable A}
    (c : A → bool) (s : gset A) :
  s ≠ ∅ →
  (compute_event_probability c (SetSpace s) = Return 0%Qc
   ↔ ∀ o, o ∈ s → c o = false) ∧
  (compute_event_probability c (SetSpace s) = Return 1%Qc
   ↔ ∀ o, o ∈ s → c o = true).
Proof.
  intros Hs.
  assert (Hsp : nonempty_space (SetSpace s)) by done.
  pose proof (nonempty_total_measure _ Hsp) as Htot.
  pose proof (matching_measure_negb c (SetSpace s)) as Hsplit.
  pose proof (matching_measure_zero c _ Hsp) as Hzero.
  pose proof (matching_measure_zero (λ o, negb (c o)) _ Hsp) as Hnzero.
  rewrite compute_event_probability_returns by done.
  split; split.
  - intros Hq%Return_inj. apply Hzero. by apply (Qcdiv_eq_zero _ (total_measure (SetSpace s))); [lia|].
  - intros Hnone. f_equal. apply Qcdiv_eq_zero; [lia|]. by apply Hzero.
  - intros Hq%Return_inj o Ho. apply negb_false_iff. apply Hnzero; [|done].
    apply (Qcdiv_eq_one _ (total_measure (SetSpace s))) in Hq; lia.
  - intros Hall. f_equal. apply Qcdiv_eq_one; [lia|].
    assert (matching_measure (λ o, negb (c o)) (SetSpace s) = 0); [|lia].
    apply Hnzero. intros o Ho. by apply negb_false_iff, Hall.
Qed.

Lemma compute_event_probability_set_zero_one_witness :
  (compute_event_probability is_neither (SetSpace coin_sample_space) = Return 0%Qc
   ↔ ∀ o, o ∈ coin_sample_space → is_neither o = false) ∧
  (compute_event_probability is_neither (SetSpace coin_sample_space) = Return 1%Qc
   ↔ ∀ o, o ∈ coin_sample_space → is_neither o = true).
Proof. apply compute_event_probability_set_zero_one. done. Defined.

Lemma is_heads_or_tails_orb (outcome : string) :
  is_heads_or_tails outcome = is_heads outcome || is_tails outcome.
Proof.
  unfold is_heads_or_tails, is_heads, is_tails.
  apply eq_true_iff_eq.
  rewrite orb_true_iff, !bool_decide_eq_true, elem_of_union, !elem_of_singleton.
  done.
Qed.

(** X6. On every sample space of strings, the event of
    [is_heads_or_tails] is the union of the events of [is_heads] and
    [is_tails], which share no outcome, and the event of [is_neither] is
    made of the remaining outcomes of the space. *)
Theorem coin_conditions_events (space : SampleSpace string) :
  get_matching_event is_heads_or_tails space
  = get_matching_event is_heads space ∪ get_matching_event is_tails space ∧
  get_matching_event is_heads space ## get_matching_event is_tails space ∧
  get_matching_event is_neither space
  = outcomes space ∖ get_matching_event is_heads_or_tails space.
Proof.
  split; [|split].
  - rewrite <-get_matching_event_or, !get_matching_event_outcomes.
    apply set_eq. intros o. by rewrite !elem_of_filter, is_heads_or_tails_orb.
  - apply get_matching_event_disjoint. intros o _.
    unfold is_heads, is_tails. rewrite !bool_decide_eq_true. by intros [-> ?].
  - rewrite !get_matching_event_outcomes. apply set_eq. intros o.
    rewrite elem_of_difference, !elem_of_filter. unfold is_neither.
    rewrite negb_True. tauto.
Qed.

(** X7. The event that [get_matching_event] returns lies within the
    outcomes of the space; taken as a set-form sample space and filtered by a
    second condition it is the event of both conditions on the original
    space, and filtered again by the same condition it is unchanged. *)
Theorem get_matching_event_compose `{Countable A}
    (c1 c2 : A → bool) (space : SampleSpace A) :
  get_matching_event c1 space ⊆ outcomes space ∧
  get_matching_event c2 (SetSpace (get_matching_event c1 space))
  = get_matching_event (λ o, c1 o && c2 o) space ∧
  get_matching_event c1 (SetSpace (get_matching_event c1 space))
  = get_matching_event c1 space.
Proof.
  rewrite !get_matching_event_set, !get_matching_event_outcomes.
  split; [|split].
  - intros o [_ Ho]%elem_of_filter. done.
  - apply set_eq. intros o. rewrite !elem_of_filter, andb_True. tauto.
  - apply set_eq. intros o. rewrite !elem_of_filter. tauto.
Qed.

(** X8. [compute_probability] agrees with [compute_event_probability]
    on a set, and on a dict it ignores the weights: it returns what
    [compute_event_probability] returns on the set of the keys. *)
Theorem compute_probability_keys `{Countable A} (c : A → bool) :
  (∀ s : gset A,
     compute_probability c (SetSpace s) = compute_event_probability c (SetSpace s)) ∧
  (∀ d : gmap A Z,
     compute_probability c (DictSpace d)
     = compute_event_probability c (SetSpace (dom d))).
Proof.
  split; [done|]. intros d.
  rewrite compute_probability_measure, compute_event_probability_measure.
  by rewrite matching_measure_set, total_measure_set.
Qed.

(** X9. On a dict whose weights are all the same non-zero number,
    [compute_event_probability] and [compute_probability] give the same
    result. *)
Theorem compute_probability_equal_weights `{Countable A}
    (c : A → bool) (d : gmap A Z) (w : Z) :
  w ≠ 0 → (∀ o v, d !! o = Some v → v = w) →
  compute_event_probability c (DictSpace d) = compute_probability c (DictSpace d).
Proof.
  intros Hw Hd.
  rewrite compute_probability_measure, compute_event_probability_measure.
  unfold matching_measure, total_measure. simpl.
  assert (Hweight : ∀ o, o ∈ dom d → weight d o = w).
  { intros o [v Hv]%elem_of_dom. unfold weight. rewrite Hv. simpl. by eapply Hd. }
  rewrite !(sum_over_const w).
  - by apply truediv_scale.
  - done.
  - intros o [_ Ho]%elem_of_filter. by apply Hweight.
Qed.

Lemma compute_probability_equal_weights_witness :
  compute_event_probability is_heads (DictSpace {["Heads" := 3; "Tails" := 3]})
  = compute_probability is_heads (DictSpace {["Heads" := 3; "Tails" := 3]}).
Proof.
  apply (compute_probability_equal_weights is_heads _ 3); [done|].
  intros o v [[_ <-]|[_ [_ <-]%lookup_singleton_Some]]%lookup_insert_Some; done.
Defined.

Example compute_probability_weighted_coin :
  compute_probability is_heads (DictSpace weighted_coin_sample_space)
  = Return (Q2Qc (1 # 2)).
Proof. evaluate. Qed.

(** ** Enumerations, continued *)

Lemma elem_of_product {A} (pool : list A) (n : nat) (t : list A) :
  t ∈ product pool n ↔ length t = n ∧ Forall (λ x, x ∈ pool) t.
Proof.
  revert t. induction n as [|n IH]; intros t.
  - simpl. rewrite list_elem_of_singleton. split.
    + by intros ->.
    + intros [Hlen _]. by apply nil_length_inv.
  - cbn [product]. rewrite list_elem_of_bind. split.
    + intros (x & (y & ->%list_elem_of_singleton & Hy)%list_elem_of_bind & Hx).
      apply IH in Hx as [Hlen Hall]. split.
      * rewrite length_app. simpl. lia.
      * apply Forall_app. split; [done|]. by apply Forall_singleton.
    + intros [Hlen Hall].
      destruct t as [|z t _] using rev_ind; [simpl in Hlen; lia|].
      rewrite length_app in Hlen. simpl in Hlen.
      apply Forall_app in Hall as [Hall Hz]. rewrite Forall_singleton in Hz.
      exists t. split.
      * apply list_elem_of_bind. exists z. split; [|exact Hz].
        by apply list_elem_of_singleton.
      * apply IH. split; [lia|done].
Qed.

Lemma product_of_replicate {A} (pool : list A) (n : nat) :
  product_of (replicate n pool) = product pool n.
Proof.
  unfold product_of. induction n as [|n IH]; [done|].
  by rewrite replicate_S_end, foldl_snoc, IH.
Qed.

Lemma elem_of_foldl_add {A} `{Countable B}
    (step : gset B → A → gset B) (P : A → B → Prop) :
  (∀ s x y, y ∈ step s x ↔ y ∈ s ∨ P x y) →
  ∀ l s y, y ∈ foldl step s l ↔ y ∈ s ∨ ∃ x, x ∈ l ∧ P x y.
Proof.
  intros Hstep l. induction l as [|x l IH]; intros s y; simpl.
  - split; [auto|]. intros [?|(x & Hx & _)]; [done|]. by apply not_elem_of_nil in Hx.
  - rewrite IH, Hstep. split.
    + intros [[?|?]|(x' & ? & ?)]; [by left|right..].
      * exists x. split; [left|done].
      * exists x'. split; [by right|done].
    + intros [?|(x' & [->|?]%elem_of_cons & ?)]; [by left; left|by left; right|].
      right. by exists x'.
Qed.

Lemma elem_of_nested_sample_space `{Countable A} (pool : list A) (t : list A) :
  t ∈ nested_sample_space pool ↔
  ∃ child1, child1 ∈ pool ∧ ∃ child2, child2 ∈ pool ∧
  ∃ child3, child3 ∈ pool ∧ ∃ child4, child4 ∈ pool ∧
    t = [child1; child2; child3; child4].
Proof.
  unfold nested_sample_space.
  rewrite (elem_of_foldl_add _ (λ child1 t,
    ∃ child2, child2 ∈ pool ∧ ∃ child3, child3 ∈ pool ∧
    ∃ child4, child4 ∈ pool ∧ t = [child1; child2; child3; child4])).
  { rewrite elem_of_empty. tauto. }
  intros s1 child1 t1.
  apply (elem_of_foldl_add _ (λ child2 t,
    ∃ child3, child3 ∈ pool ∧
    ∃ child4, child4 ∈ pool ∧ t = [child1; child2; child3; child4])).
  intros s2 child2 t2.
  apply (elem_of_foldl_add _ (λ child3 t,
    ∃ child4, child4 ∈ pool ∧ t = [child1; child2; child3; child4])).
  intros s3 child3 t3.
  apply (elem_of_foldl_add _ (λ child4 t, t = [child1; child2; child3; child4])).
  intros s4 child4 t4. cbn zeta. rewrite elem_of_union, elem_of_singleton. tauto.
Qed.

Lemma elem_of_product_4 {A} (pool : list A) (t : list A) :
  t ∈ product pool 4 ↔
  ∃ child1, child1 ∈ pool ∧ ∃ child2, child2 ∈ pool ∧
  ∃ child3, child3 ∈ pool ∧ ∃ child4, child4 ∈ pool ∧
    t = [child1; child2; child3; child4].
Proof.
  rewrite elem_of_product. split.
  - intros [Hlen Hall].
    destruct t as [|c1 [|c2 [|c3 [|c4 [|c5 t]]]]]; try done.
    apply Forall_cons in Hall as [? Hall].
    apply Forall_cons in Hall as [? Hall].
    apply Forall_cons in Hall as [? Hall].
    apply Forall_cons in Hall as [? Hall].
    exists c1. split; [done|]. exists c2. split; [done|].
    exists c3. split; [done|]. by exists c4.
  - intros (c1 & ? & c2 & ? & c3 & ? & c4 & ? & ->). split; [done|].
    repeat (apply Forall_cons; split; [done|]). apply Forall_nil_2.
Qed.

(** X10. For every list [possible_children], the set that the four
    nested loops build is the set of [product] over four copies of the list
    and the set of [product] with [repeat=4]: the two assertions of the
    notebook. *)
Theorem nested_sample_space_product `{Countable A} (possible_children : list A) :
  list_to_set (product_of (replicate 4 possible_children))
  = nested_sample_space possible_children ∧
  nested_sample_space possible_children
  = list_to_set (product possible_children 4).
Proof.
  rewrite product_of_replicate.
  assert (nested_sample_space possible_children
          = list_to_set (product possible_children 4)) as ->; [|done].
  apply set_eq. intros t.
  by rewrite elem_of_list_to_set, elem_of_product_4, elem_of_nested_sample_space.
Qed.

(** X11. The sample space of the die rolls holds exactly the sequences
    of six rolls, each between 1 and 6. *)
Theorem dice_sample_space_outcomes (outcome : list Z) :
  outcome ∈ dice_sample_space ↔
  length outcome = 6%nat ∧ Forall (λ roll, 1 ≤ roll ≤ 6) outcome.
Proof.
  unfold dice_sample_space, possible_rolls.
  rewrite elem_of_list_to_set, elem_of_product.
  apply and_iff_compat_l. apply Forall_proper; [|done].
  intros roll. rewrite elem_of_seqZ. lia.
Qed.

(** ** The counting loop *)

Section count_by_more.
Context {A : Type} `{Countable K} (f : A → K).
Implicit Types (l : list A) (d : gmap K Z) (k v : K).

Lemma count_by_Permutation l1 l2 : l1 ≡ₚ l2 → count_by f l1 = count_by f l2.
Proof.
  intros Hperm. apply map_eq. intros v. rewrite !lookup_count_by. cbn zeta.
  assert (length (filter (λ o, f o = v) l1) = length (filter (λ o, f o = v) l2))
    as ->; [|done].
  apply Permutation_length. by apply filter_Permutation.
Qed.

Lemma dom_count_by l : dom (count_by f l) = list_to_set (f <$> l).
Proof.
  apply set_eq. intros v.
  rewrite elem_of_dom, lookup_count_by, elem_of_list_to_set, list_elem_of_fmap.
  cbn zeta. split.
  - case_decide as Hn; [by intros [? ?]|]. intros _.
    destruct (filter (λ o, f o = v) l) as [|o l'] eqn:Hfilter; [done|].
    assert (o ∈ filter (λ o, f o = v) l) as [Ho ?]%list_elem_of_filter
      by (rewrite Hfilter; left).
    by exists o.
  - intros (o & -> & Ho). rewrite decide_False; [by eexists|].
    assert (o ∈ filter (λ o', f o' = f o) l) as Hin by (by apply list_elem_of_filter).
    destruct (filter (λ o', f o' = f o) l); [by apply not_elem_of_nil in Hin|].
    simpl. lia.
Qed.

End count_by_more.

Lemma size_le_sum_values `{Countable K} (d : gmap K Z) :
  positive_weights d → Z.of_nat (size d) ≤ sum (values d).
Proof.
  induction d as [|k w d Hk IH] using map_ind; intros Hpos.
  - done.
  - rewrite map_size_insert_None by done.
    rewrite sum_values_insert. unfold weight. rewrite Hk. simpl.
    assert (0 < w) by (apply (Hpos k w), lookup_insert_eq).
    assert (Z.of_nat (size d) ≤ sum (values d)); [|lia].
    apply IH. intros k' w' Hk'. apply (Hpos k' w').
    rewrite lookup_insert_ne; [done|]. intros ->. congruence.
Qed.

(** X12. The dict that the counting loop builds does not depend on the
    order in which the set is iterated: every duplicate-free enumeration of
    the set gives the same dict. *)
Theorem count_by_order_independent `{Countable A} `{Countable K}
    (f : A → K) (S : gset A) (l : list A) :
  NoDup l → (∀ o, o ∈ l ↔ o ∈ S) →
  count_by f l = count_by f (elements S).
Proof.
  intros Hnodup Hl. apply count_by_Permutation, NoDup_Permutation.
  - done.
  - apply NoDup_elements.
  - intros o. by rewrite Hl, elem_of_elements.
Qed.

Lemma count_by_order_independent_witness :
  count_by String.length ["Tails"; "Heads"; "Edge"]
  = count_by String.length (elements ({["Heads"; "Tails"; "Edge"]} : gset string)).
Proof.
  apply count_by_order_independent.
  - by apply (bool_decide_unpack _).
  - intros o. rewrite !elem_of_union, !elem_of_singleton, !elem_of_cons, elem_of_nil.
    tauto.
Defined.

(** X13. For every statistic [f] and every set of outcomes, the dict of
    the counting loop holds at each value the size of the event "[f] of the
    outcome equals the value"; its keys are exactly the values that occur;
    its weights are positive; its values add up to the number of outcomes;
    and it has at most as many keys as there are outcomes. *)
Theorem count_by_histogram `{Countable A} `{Countable K} (f : A → K) (S : gset A) :
  let W := count_by f (elements S) in
  (∀ v, weight W v
        = len (elements (get_matching_event (λ o, bool_decide (f o = v)) (SetSpace S)))) ∧
  (∀ v, is_Some (W !! v) ↔ ∃ o, o ∈ S ∧ f o = v) ∧
  positive_weights W ∧
  sum (values W) = len (elements S) ∧
  (size W ≤ size S)%nat.
Proof.
  intros W. split; [|split; [|split; [|split]]].
  - intros v. unfold W. rewrite weight_count_by, length_filter_elements.
    rewrite get_matching_event_set.
    assert (filter (λ o, bool_decide (f o = v)) S = filter (λ o, f o = v) S) as ->;
      [|done].
    apply set_eq. intros o. rewrite !elem_of_filter, bool_decide_spec. done.
  - intros v. rewrite <-elem_of_dom. unfold W.
    rewrite dom_count_by, elem_of_list_to_set, list_elem_of_fmap.
    split; intros (o & ? & ?); exists o; by rewrite ?elem_of_elements in *.
  - apply positive_weights_count_by.
  - apply sum_values_count_by.
  - pose proof (size_le_sum_values W (positive_weights_count_by f (elements S))) as Hle.
    unfold W in Hle. rewrite sum_values_count_by in Hle. unfold len in Hle.
    change (length (elements S)) with (size S) in Hle. unfold W. lia.
Qed.

(** ** The coin histogram *)

Lemma choose_sym (n k : nat) : (k ≤ n)%nat → choose n k = choose n (n - k).
Proof.
  intros Hk.
  pose proof (choose_fact n k Hk) as H1.
  pose proof (choose_fact n (n - k) ltac:(lia)) as H2.
  replace (n - (n - k))%nat with k in H2 by lia.
  pose proof (lt_O_fact k). pose proof (lt_O_fact (n - k)).
  apply (Nat.mul_cancel_r _ _ (fact k * fact (n - k))); [nia|].
  rewrite H1, <-H2. f_equal. lia.
Qed.

Lemma lookup_coin_sample_space (n : nat) (k : Z) :
  count_by heads_count (product ["Heads"; "Tails"] n) !! k
  = if decide (0 ≤ k ≤ Z.of_nat n)
    then Some (Z.of_nat (choose n (Z.to_nat k))) else None.
Proof.
  rewrite lookup_count_by. cbn zeta.
  destruct (decide (0 ≤ k)) as [Hk|Hk].
  - pose proof (count_heads_product n (Z.to_nat k)) as Hcount.
    rewrite Z2Nat.id in Hcount by done. rewrite Hcount.
    destruct (decide (k ≤ Z.of_nat n)) as [Hle|Hgt].
    + pose proof (choose_pos n (Z.to_nat k) ltac:(lia)).
      rewrite decide_False, decide_True by lia. done.
    + rewrite choose_gt by lia. rewrite decide_True, decide_False by lia. done.
  - rewrite count_heads_negative by lia.
    rewrite decide_True, decide_False by lia. done.
Qed.

Lemma sum_values_coin_sample_space (n : nat) :
  sum (values (count_by heads_count (product ["Heads"; "Tails"] n)))
  = 2 ^ Z.of_nat n.
Proof.
  rewrite sum_values_count_by. unfold len. rewrite length_product. simpl length.
  by rewrite Nat2Z.inj_pow.
Qed.

Section reindex.
Context `{Countable A}.
Implicit Types (g : A → Z) (h : A → A) (X Y : gset A).

Lemma sum_over_singleton g x : sum_over g {[x]} = g x.
Proof. unfold sum_over. rewrite elements_singleton. simpl. unfold sum. simpl. lia. Qed.

Lemma sum_over_filter_eq g k X :
  k ∈ X → sum_over g (filter (λ x, bool_decide (x = k)) X) = g k.
Proof.
  intros Hk. rewrite <-(sum_over_singleton g k). f_equal.
  apply set_eq. intros x. rewrite elem_of_filter, bool_decide_spec, elem_of_singleton.
  split; [tauto|]. by intros ->.
Qed.

Lemma sum_over_set_map g h Y :
  (∀ x y, x ∈ Y → y ∈ Y → h x = h y → x = y) →
  sum_over g (set_map h Y) = sum_over (λ x, g (h x)) Y.
Proof.
  induction Y as [|x Y Hx IH] using set_ind_L; intros Hinj.
  - by rewrite set_map_empty, !sum_over_empty.
  - rewrite set_map_union_L, set_map_singleton_L, !sum_over_insert.
    + rewrite IH; [done|]. intros y z Hy Hz. apply Hinj; rewrite elem_of_union; auto.
    + done.
    + intros (y & Hxy & Hy)%elem_of_map. apply Hinj in Hxy.
      * by subst.
      * rewrite elem_of_union, elem_of_singleton. auto.
      * rewrite elem_of_union. auto.
Qed.

(** A measure that a reflection [h] of the outcomes preserves gives a
    condition and its reflection the same total. *)
Lemma sum_over_filter_reflect g h (P : A → Prop) `{!∀ x, Decision (P x)} X :
  (∀ x, x ∈ X → h x ∈ X) → (∀ x, x ∈ X → h (h x) = x) →
  (∀ x, x ∈ X → g (h x) = g x) →
  sum_over g (filter (λ x, P (h x)) X) = sum_over g (filter P X).
Proof.
  intros Hclosed Hinv Hg.
  assert (filter P X = set_map h (filter (λ x, P (h x)) X)) as ->.
  { apply set_eq. intros x. rewrite elem_of_map, elem_of_filter. split.
    - intros [HP Hx]. exists (h x). rewrite elem_of_filter, Hinv by done. auto.
    - intros (y & -> & [HP Hy]%elem_of_filter). auto. }
  rewrite sum_over_set_map.
  - apply sum_over_ext. intros x [_ Hx]%elem_of_filter. symmetry. by apply Hg.
  - intros x y [_ Hx]%elem_of_filter [_ Hy]%elem_of_filter Hxy.
    by rewrite <-(Hinv x), <-(Hinv y), Hxy.
Qed.

Lemma sum_over_filter_reflect_bool g h (c : A → bool) X :
  (∀ x, x ∈ X → h x ∈ X) → (∀ x, x ∈ X → h (h x) = x) →
  (∀ x, x ∈ X → g (h x) = g x) →
  sum_over g (filter (λ x, c (h x)) X) = sum_over g (filter (λ x, c x) X).
Proof.
  exact (@sum_over_filter_reflect g h (λ x, Is_true (c x))
           (λ x, Is_true_dec (c x)) X).
Qed.

End reindex.

(** X15. Over the sample space that [generate_coin_sample_space]
    returns for [num_flips] flips, [num_flips] below [2^60], the probability
    of exactly [k] heads, for [k] from 0 to [num_flips], is the binomial
    coefficient of [num_flips] and [k] divided by 2 to the power
    [num_flips]. *)
Theorem heads_count_probability (num_flips k : Z) :
  0 ≤ k ≤ num_flips → num_flips < 2 ^ 60 →
  ∃ W : gmap Z Z,
    generate_coin_sample_space num_flips = Return W ∧
    compute_event_probability (λ x, bool_decide (x = k)) (DictSpace W)
    = Return (Qc_of_Z (Z.of_nat (choose (Z.to_nat num_flips) (Z.to_nat k)))
              / Qc_of_Z (2 ^ num_flips))%Qc.
Proof.
  intros Hk Hbound. rewrite generate_coin_sample_space_returns by lia.
  clear Hbound. eexists. split; [done|].
  set (n := Z.to_nat num_flips).
  set (W := count_by heads_count (product ["Heads"; "Tails"] n)).
  assert (Hlookup : W !! k = Some (Z.of_nat (choose n (Z.to_nat k)))).
  { unfold W. rewrite lookup_coin_sample_space. by rewrite decide_True by lia. }
  assert (Htotal : total_measure (DictSpace W) = 2 ^ num_flips).
  { rewrite total_measure_dict. unfold W.
    rewrite sum_values_coin_sample_space. f_equal. lia. }
  assert (Hmatch : matching_measure (λ x, bool_decide (x = k)) (DictSpace W)
                   = Z.of_nat (choose n (Z.to_nat k))).
  { unfold matching_measure. simpl. rewrite sum_over_filter_eq.
    - unfold weight. by rewrite Hlookup.
    - apply elem_of_dom. by rewrite Hlookup. }
  rewrite compute_event_probability_returns.
  - by rewrite Hmatch, Htotal.
  - apply positive_nonneg_weights, positive_weights_count_by.
  - rewrite Htotal. apply Z.pow_pos_nonneg; lia.
Qed.

Lemma heads_count_probability_witness :
  ∃ W : gmap Z Z,
    generate_coin_sample_space 10 = Return W ∧
    compute_event_probability (λ x, bool_decide (x = 9)) (DictSpace W)
    = Return (Qc_of_Z (Z.of_nat (choose (Z.to_nat 10) (Z.to_nat 9)))
              / Qc_of_Z (2 ^ 10))%Qc.
Proof. apply heads_count_probability; lia. Defined.

(** X16. The sample space that [generate_coin_sample_space] returns, for
    [num_flips] at least zero and below [2^60], is symmetric in heads and
    tails: the entry at [k] is the entry at [num_flips - k], and a condition
    on the number of heads has the probability of the same condition on the
    number of tails. *)
Theorem coin_sample_space_symmetric (num_flips : Z) (c : Z → bool) :
  0 ≤ num_flips < 2 ^ 60 →
  ∃ W : gmap Z Z,
    generate_coin_sample_space num_flips = Return W ∧
    (∀ k, W !! k = W !! (num_flips - k)) ∧
    compute_event_probability (λ x, c (num_flips - x)) (DictSpace W)
    = compute_event_probability c (DictSpace W).
Proof.
  intros Hbound. rewrite generate_coin_sample_space_returns by done.
  destruct Hbound as [Hn _]. eexists. split; [done|].
  set (n := Z.to_nat num_flips).
  set (W := count_by heads_count (product ["Heads"; "Tails"] n)).
  assert (Hsym : ∀ k, W !! k = W !! (num_flips - k)).
  { intros k. unfold W. rewrite !lookup_coin_sample_space.
    destruct (decide (0 ≤ k ≤ Z.of_nat n)).
    - rewrite decide_True by lia. do 2 f_equal.
      rewrite (choose_sym n (Z.to_nat k)) by lia. f_equal. lia.
    - by rewrite decide_False by lia. }
  split; [done|].
  rewrite !compute_event_probability_measure. f_equal.
  unfold matching_measure. simpl.
  apply (sum_over_filter_reflect_bool (weight W) (λ x, num_flips - x) c).
  - intros x. rewrite !elem_of_dom, <-Hsym. done.
  - intros x _. lia.
  - intros x _. unfold weight. by rewrite <-Hsym.
Qed.

Lemma coin_sample_space_symmetric_witness :
  ∃ W : gmap Z Z,
    generate_coin_sample_space 10 = Return W ∧
    (∀ k, W !! k = W !! (10 - k)) ∧
    compute_event_probability (λ x, is_in_interval (10 - x) 8 10) (DictSpace W)
    = compute_event_probability (λ x, is_in_interval x 8 10) (DictSpace W).
Proof.
  apply (coin_sample_space_symmetric 10 (λ x, is_in_interval x 8 10)). lia.
Defined.

(** ** Intervals *)

Lemma is_in_interval_spec (number minimum maximum : Z) :
  is_in_interval number minimum maximum = true ↔ minimum ≤ number ≤ maximum.
Proof. unfold is_in_interval. rewrite andb_true_iff, !Z.leb_le. done. Qed.

(** X17. With the maximum below the minimum [is_in_interval] holds of
    no number: no exception is raised, the event is empty and, on a non-empty
    sample space of integers, the probability is 0. *)
Theorem is_in_interval_empty (lo hi : Z) (space : SampleSpace Z) :
  hi < lo →
  get_matching_event (λ v, is_in_interval v lo hi) space = ∅ ∧
  (nonempty_space space →
   compute_event_probability (λ v, is_in_interval v lo hi) space = Return 0%Qc).
Proof.
  intros Hlt.
  assert (Hnone : ∀ v, is_in_interval v lo hi = false).
  { intros v. apply not_true_iff_false. rewrite is_in_interval_spec. lia. }
  split.
  - rewrite get_matching_event_outcomes. apply set_eq. intros v.
    rewrite elem_of_filter, Hnone, elem_of_empty. simpl. tauto.
  - intros Hsp.
    rewrite compute_event_probability_returns
      by eauto using nonempty_nonneg_space, nonempty_total_measure.
    f_equal. apply Qcdiv_eq_zero.
    + pose proof (nonempty_total_measure space Hsp). lia.
    + by apply matching_measure_zero.
Qed.

Lemma is_in_interval_empty_witness :
  get_matching_event (λ v, is_in_interval v 7 3) (DictSpace {[1 := 1; 5 := 3]}) = ∅ ∧
  compute_event_probability (λ v, is_in_interval v 7 3) (DictSpace {[1 := 1; 5 := 3]})
  = Return 0%Qc.
Proof.
  destruct (is_in_interval_empty 7 3 (DictSpace {[1 := 1; 5 := 3]})) as [Hevent Hprob];
    [lia|].
  split; [exact Hevent|]. apply Hprob. split; [done|].
  apply (bool_decide_unpack _). vm_compute. exact I.
Defined.

(** X18. On a sample space of integers, the event of the interval from
    [lo] to [hi] is the union of the events of the intervals from [lo] to
    [mid] and from [mid + 1] to [hi], which share no outcome, and the number
    of its outcomes is the sum of theirs. *)
Theorem is_in_interval_split (lo mid hi : Z) (space : SampleSpace Z) :
  lo - 1 ≤ mid ≤ hi →
  let low := get_matching_event (λ v, is_in_interval v lo mid) space in
  let high := get_matching_event (λ v, is_in_interval v (mid + 1) hi) space in
  let whole := get_matching_event (λ v, is_in_interval v lo hi) space in
  whole = low ∪ high ∧
  low ## high ∧
  len (elements whole) = len (elements low) + len (elements high).
Proof.
  intros Hmid low high whole.
  assert (Hwhole : whole = low ∪ high).
  { unfold whole, low, high. rewrite <-get_matching_event_or.
    rewrite !get_matching_event_outcomes. apply filter_ext_in. intros v _.
    rewrite orb_True, !Is_true_true, !is_in_interval_spec. lia. }
  assert (Hdisj : low ## high).
  { apply get_matching_event_disjoint. intros v _.
    rewrite !is_in_interval_spec. lia. }
  split; [done|]. split; [done|].
  rewrite Hwhole. by apply len_elements_union.
Qed.

Lemma is_in_interval_split_witness :
  let space := DictSpace ({[1 := 1; 8 := 3; 9 := 3; 10 := 1]} : gmap Z Z) in
  let low := get_matching_event (λ v, is_in_interval v 0 7) space in
  let high := get_matching_event (λ v, is_in_interval v (7 + 1) 10) space in
  let whole := get_matching_event (λ v, is_in_interval v 0 10) space in
  whole = low ∪ high ∧
  low ## high ∧
  len (elements whole) = len (elements low) + len (elements high).
Proof. apply (is_in_interval_split 0 7 10). lia. Defined.

(** ** Observed frequencies *)

Lemma total_heads_bounds (l : list Z) : 0 ≤ total_heads l ≤ len l.
Proof.
  unfold total_heads, len. pose proof (length_filter (λ head, head = 1) l). lia.
Qed.

Lemma frequency_heads_returns (l : list Z) :
  l ≠ [] → frequency_heads l = Return (heads_ratio l).
Proof.
  intros Hl. apply truediv_unit_interval; [apply total_heads_bounds|].
  unfold len. destruct l; [done|simpl; lia].
Qed.

Lemma simulate_frequencies_spec (draws coin_flips : list Z) (frequencies : list Qc) :
  ∃ new : list Qc,
    simulate_frequencies draws coin_flips frequencies
    = Return (coin_flips ++ draws, frequencies ++ new) ∧
    length new = length draws ∧
    ∀ i p, new !! i = Some p → p = heads_ratio (coin_flips ++ take (S i) draws).
Proof.
  revert coin_flips frequencies.
  induction draws as [|flip draws IH]; intros coin_flips frequencies.
  - exists []. simpl. rewrite !app_nil_r. split; [done|]. split; [done|].
    intros i p. by rewrite lookup_nil.
  - cbn [simulate_frequencies]. cbn zeta.
    rewrite frequency_heads_returns by (by destruct coin_flips).
    cbn [bind].
    destruct (IH (coin_flips ++ [flip])
                (frequencies ++ [heads_ratio (coin_flips ++ [flip])]))
      as (new & Hrun & Hlen & Hnew).
    exists (heads_ratio (coin_flips ++ [flip]) :: new).
    rewrite Hrun, <-!app_assoc. simpl.
    split; [done|]. split; [by rewrite Hlen|].
    intros [|i] p Hp; simpl in Hp.
    + injection Hp as <-. by rewrite take_0.
    + specialize (Hnew i p Hp). by rewrite <-app_assoc in Hnew.
Qed.

(** X19. The simulation loop never divides by zero, whatever the draws
    are: it appends the flip before it computes the frequency.  It ends with
    the draws as [coin_flips] and one frequency for each round; the
    frequency of round [i] is [frequency_heads] of the first [i + 1] draws and
    lies between 0 and 1. *)
Theorem simulate_frequencies_runs (draws : list Z) :
  ∃ frequencies : list Qc,
    simulate_frequencies draws [] [] = Return (draws, frequencies) ∧
    length frequencies = length draws ∧
    ∀ i p, frequencies !! i = Some p →
      frequency_heads (take (S i) draws) = Return p ∧ (0 ≤ p ≤ 1)%Qc.
Proof.
  destruct (simulate_frequencies_spec draws [] []) as (new & Hrun & Hlen & Hnew).
  exists new. split; [done|]. split; [done|].
  intros i p Hp. specialize (Hnew i p Hp). simpl in Hnew. subst p.
  assert (take (S i) draws ≠ []) as Hne.
  { apply lookup_lt_Some in Hp. rewrite Hlen in Hp.
    destruct draws; [simpl in Hp; lia|done]. }
  split; [by apply frequency_heads_returns|].
  apply Qcdiv_unit_interval; [apply total_heads_bounds|].
  unfold len. destruct (take (S i) draws); [done|simpl; lia].
Qed.

Lemma total_heads_Permutation (l1 l2 : list Z) :
  l1 ≡ₚ l2 → total_heads l1 = total_heads l2.
Proof.
  intros Hperm. unfold total_heads, len. f_equal.
  apply Permutation_length. by apply filter_Permutation.
Qed.

Lemma total_heads_sum (l : list Z) :
  Forall (λ flip, flip = 0 ∨ flip = 1) l → total_heads l = sum l.
Proof.
  unfold total_heads, len. induction 1 as [|flip l Hflip _ IH]; [done|].
  rewrite filter_cons, sum_cons, <-IH.
  destruct Hflip as [-> | ->]; case_decide; simpl; lia.
Qed.

Lemma total_heads_all (l : list Z) :
  total_heads l = len l ↔ Forall (λ flip, flip = 1) l.
Proof.
  unfold total_heads, len. induction l as [|flip l IH].
  - split; [constructor|done].
  - rewrite filter_cons, Forall_cons.
    pose proof (length_filter (λ head, head = 1) l).
    case_decide; simpl; [|split; [lia|tauto]].
    rewrite <-IH. split; [intros; split; [done|lia]|intros [_ ?]; lia].
Qed.

Lemma total_heads_none (l : list Z) :
  total_heads l = 0 ↔ Forall (λ flip, flip ≠ 1) l.
Proof.
  unfold total_heads, len. induction l as [|flip l IH].
  - split; [constructor|done].
  - rewrite filter_cons, Forall_cons.
    case_decide; simpl; [split; [lia|tauto]|].
    rewrite <-IH. tauto.
Qed.

(** X20. [frequency_heads] does not depend on the order of the flips. *)
Theorem frequency_heads_order (l1 l2 : list Z) :
  l1 ≡ₚ l2 → frequency_heads l1 = frequency_heads l2.
Proof.
  intros Hperm. unfold frequency_heads.
  change (len (filter (λ head, head = 1) l1)) with (total_heads l1).
  change (len (filter (λ head, head = 1) l2)) with (total_heads l2).
  rewrite (total_heads_Permutation l1 l2) by done.
  unfold len. by rewrite (Permutation_length Hperm).
Qed.

Lemma frequency_heads_order_witness :
  frequency_heads [1; 0; 1; 1] = frequency_heads [0; 1; 1; 1].
Proof.
  apply frequency_heads_order. apply perm_swap.
Defined.

(** X21. On a sequence of flips that are all 0 or 1, [frequency_heads]
    is the sum of the flips divided by their number (their mean), with the
    same exception on the empty sequence. *)
Theorem frequency_heads_mean (l : list Z) :
  Forall (λ flip, flip = 0 ∨ flip = 1) l →
  frequency_heads l = truediv (sum l) (len l).
Proof.
  intros Hflips. unfold frequency_heads.
  change (len (filter (λ head, head = 1) l)) with (total_heads l).
  by rewrite total_heads_sum.
Qed.

Lemma frequency_heads_mean_witness :
  frequency_heads [1; 1; 0; 1; 1; 1; 1; 1; 1; 0]
  = truediv (sum [1; 1; 0; 1; 1; 1; 1; 1; 1; 0]) (len [1; 1; 0; 1; 1; 1; 1; 1; 1; 0]).
Proof.
  apply frequency_heads_mean. by apply (bool_decide_unpack _).
Defined.

(** X22. On a non-empty sequence [frequency_heads] returns 1 exactly
    when every flip is 1, and 0 exactly when no flip is 1. *)
Theorem frequency_heads_extremes (l : list Z) :
  l ≠ [] →
  (frequency_heads l = Return 1%Qc ↔ Forall (λ flip, flip = 1) l) ∧
  (frequency_heads l = Return 0%Qc ↔ Forall (λ flip, flip ≠ 1) l).
Proof.
  intros Hl. rewrite frequency_heads_returns by done.
  assert (len l ≠ 0) by (unfold len; destruct l; [done|simpl; lia]).
  unfold heads_ratio. split; split.
  - intros Hq. apply total_heads_all, (Qcdiv_eq_one _ (len l)); [done|].
    by apply Return_inj.
  - intros Hall%total_heads_all. f_equal. by apply Qcdiv_eq_one.
  - intros Hq. apply total_heads_none, (Qcdiv_eq_zero _ (len l)); [done|].
    by apply Return_inj.
  - intros Hnone%total_heads_none. f_equal. by apply Qcdiv_eq_zero.
Qed.

Lemma frequency_heads_extremes_witness :
  (frequency_heads [1; 1; 1] = Return 1%Qc ↔ Forall (λ flip, flip = 1) [1; 1; 1]) ∧
  (frequency_heads [1; 1; 1] = Return 0%Qc ↔ Forall (λ flip, flip ≠ 1) [1; 1; 1]).
Proof. apply frequency_heads_extremes. done. Defined.

(** ** The histogram of the die rolls *)

Lemma weighted_dice_sample_space_list :
  weighted_dice_sample_space = count_by sum (product possible_rolls 6).
Proof.
  unfold weighted_dice_sample_space, dice_sample_space.
  apply count_by_Permutation, elements_list_to_set, NoDup_dice_rolls.
Qed.

(** X14. The weighted sample space of the die rolls has exactly the 31
    keys from 6 to 36, holds 1 at 6 and at 36 and 4332 at 21, and its values
    add up to 46656: the assertions and printed sizes of the notebook. *)
Theorem weighted_dice_sample_space_keys :
  (∀ k, is_Some (weighted_dice_sample_space !! k) ↔ 6 ≤ k ≤ 36) ∧
  size weighted_dice_sample_space = 31%nat ∧
  weighted_dice_sample_space !! 6 = Some 1 ∧
  weighted_dice_sample_space !! 36 = Some 1 ∧
  weighted_dice_sample_space !! 21 = Some 4332 ∧
  sum (values weighted_dice_sample_space) = 46656.
Proof.
  rewrite weighted_dice_sample_space_list.
  assert (Hdom : dom (count_by sum (product possible_rolls 6))
                 = (list_to_set (seqZ 6 31) : gset Z)).
  { vm_compute. reflexivity. }
  split; [|split; [|split; [|split; [|split]]]].
  - intros k. rewrite <-elem_of_dom, Hdom, elem_of_list_to_set, elem_of_seqZ. lia.
  - vm_compute. reflexivity.
  - vm_compute. reflexivity.
  - vm_compute. reflexivity.
  - vm_compute. reflexivity.
  - rewrite sum_values_count_by. vm_compute. reflexivity.
Qed.
